(** * depak: the Kingdoms of Amalur PAK dumper (src/depak/main.cpp)

    A shallow embedding of the dumper and the properties of its
    container-parsing pipeline.

    The program reads one archive through a single [FILE*] cursor and
    produces console lines and dumped files.  It is embedded in a small
    monad that threads the cursor and collects the produced effects in
    order.  Integers of the source are [Z] with their wrap-around written
    out (the build is taken to be the 64-bit one: [size_t] is 64 bits wide).
    The three collaborators that live outside the repository (the C++
    library's [std::sort], aPLib's [aP_depack_asm] and the file system
    behind [fopen_s]) are variables of the section; the [std::sort] of the
    GNU C++ library is embedded as well, as one sort the program may be
    built with. *)

From Stdlib Require Import ZArith List Lia Bool.
From Stdlib Require Import Strings.String Strings.Ascii Strings.Byte.
From Stdlib Require Import Permutation Sorted.
Import ListNotations.
Open Scope Z_scope.

(** ** Bytes and little-endian integers *)

Definition byte_val (b : byte) : Z := Z.of_N (Byte.to_N b).

Definition byte_of_Z (v : Z) : byte :=
  match Byte.of_N (Z.to_N (v mod 256)) with
  | Some b => b
  | None => x00
  end.

(** The value of an integer object whose bytes in memory are [bs]
    (x86 is little-endian). *)
Fixpoint le_uint (bs : list byte) : Z :=
  match bs with
  | [] => 0
  | b :: rest => byte_val b + 256 * le_uint rest
  end.

(** The [n] bytes in memory of the integer [v]. *)
Fixpoint le_bytes (n : nat) (v : Z) : list byte :=
  match n with
  | O => []
  | S k => byte_of_Z v :: le_bytes k (v / 256)
  end.

Definition slice (off len : nat) (bs : list byte) : list byte :=
  firstn len (skipn off bs).

Definition u32_max : Z := 2 ^ 32.
Definition u64_max : Z := 2 ^ 64.

(** ** The structures of the format *)

(** [struct pakheader_t], 32 bytes. *)
Record pakheader_t := mk_pakheader {
  Signature : Z;     (* offset 0,  uint32_t *)
  IsValid : Z;       (* offset 4,  uint32_t *)
  Unknown00 : Z;     (* offset 8,  uint32_t: the position multiplier *)
  Unknown01 : Z;     (* offset 12, uint32_t *)
  EntriesOffset : Z; (* offset 16, uint64_t *)
  Unknown02 : Z;     (* offset 24, uint32_t *)
  Unknown03 : Z      (* offset 28, uint32_t *)
}.

Definition sizeof_pakheader_t : Z := 32.

Definition header_of_bytes (bs : list byte) : pakheader_t :=
  {| Signature := le_uint (slice 0 4 bs);
     IsValid := le_uint (slice 4 4 bs);
     Unknown00 := le_uint (slice 8 4 bs);
     Unknown01 := le_uint (slice 12 4 bs);
     EntriesOffset := le_uint (slice 16 8 bs);
     Unknown02 := le_uint (slice 24 4 bs);
     Unknown03 := le_uint (slice 28 4 bs) |}.

(** [struct pakfileentry_t], 12 bytes. *)
Record pakfileentry_t := mk_pakfileentry {
  Crc : Z;
  Position : Z;
  Size : Z
}.

Definition sizeof_pakfileentry_t : Z := 12.

Definition entry_of_bytes (bs : list byte) : pakfileentry_t :=
  {| Crc := le_uint (slice 0 4 bs);
     Position := le_uint (slice 4 4 bs);
     Size := le_uint (slice 8 4 bs) |}.

(** [struct pakfilename_t]: two [uint32_t] and a flexible array member,
    so [sizeof(pakfilename_t)] is 8. *)
Record pakfilename_t := mk_pakfilename {
  FileId : Z;
  NameSize : Z
}.

Definition sizeof_pakfilename_t : Z := 8.

Definition filename_of_bytes (bs : list byte) : pakfilename_t :=
  {| FileId := le_uint (slice 0 4 bs);
     NameSize := le_uint (slice 4 4 bs) |}.

(** [enum PakFileType]. *)
Inductive PakFileType :=
| CompressedBE | CompressedLE | UncompressedBE | UncompressedLE
| KaikoCompressedBE | KaikoCompressedLE.

Definition PakFileType_value (t : PakFileType) : Z :=
  match t with
  | CompressedBE => 0x4B504B62
  | CompressedLE => 0x6C4B504B
  | UncompressedBE => 0x624B4150
  | UncompressedLE => 0x6C4B4150
  | KaikoCompressedBE => 0x6252414B
  | KaikoCompressedLE => 0x6C52414B
  end.

(** [std::tuple<uint32_t, uint32_t, uint32_t>]: crc, position, size. *)
Definition file_entry : Type := Z * Z * Z.
Definition get_0 (e : file_entry) : Z := fst (fst e).
Definition get_1 (e : file_entry) : Z := snd (fst e).
Definition get_2 (e : file_entry) : Z := snd e.

(** [std::tuple<uint32_t, std::string>]: file id, name. *)
Definition string_entry : Type := Z * string.

(** ** Effects *)

(** The console lines of the program, one constructor per [printf_s]. *)
Inductive message :=
| Banner
| ErrNoInputFile
| ErrOpenFailed
| ErrInvalidFileSize
| ErrUnsupported               (* "PAK file type unsupported!" *)
| ErrInvalidPakInformation
| InfoProcessingKarl
| InfoEntryCount (n : Z)
| InfoSpecialCount (n : Z)
| InfoParsingEntries
| InfoEntryFound (crc pos size : Z)
| InfoParsingSpecial
| WarnSpecialUnsupported
| InfoParsingStrings
| ErrInvalidStringTable
| InfoSavingFile (name : string)
| ErrDumpFailed (path : string)
| Done.

Inductive event :=
| Print (m : message)
| Seek (offset : Z)                         (* _fseeki64(f, offset, SEEK_SET) *)
| CreateDirectory (path : string)
| FileWrite (path : string) (data : list byte). (* fopen_s + fwrite + fclose *)

Inductive failure :=
| OutOfFuel   (* the string-table loop was still running *)
| Abort.      (* a buffer of fixed size was overrun *)

Inductive result (A : Type) :=
| Ok (a : A)
| Err (e : failure).
Arguments Ok {A} a.
Arguments Err {A} e.

(** A computation starts at a cursor of the archive and gives a result,
    the cursor it leaves and the effects it produced, in order. *)
Definition M (A : Type) : Type := Z -> result A * Z * list event.

Definition ret {A} (a : A) : M A := fun pos => (Ok a, pos, []).

Definition bind {A B} (m : M A) (f : A -> M B) : M B :=
  fun pos =>
    match m pos with
    | (Ok a, pos', ev) =>
        match f a pos' with
        | (r, pos'', ev') => (r, pos'', ev ++ ev')
        end
    | (Err e, pos', ev) => (Err e, pos', ev)
    end.

Definition emit (e : event) : M unit := fun pos => (Ok tt, pos, [e]).
Definition printf_s (m : message) : M unit := emit (Print m).
Definition fail {A} (e : failure) : M A := fun pos => (Err e, pos, []).

Declare Scope io_scope.
Delimit Scope io_scope with io.
Notation "x <- m ;; k" := (bind m (fun x => k))
  (at level 61, m at next level, right associativity) : io_scope.
Notation "m ;;; k" := (bind m (fun _ => k))
  (at level 61, right associativity) : io_scope.
Open Scope io_scope.

Definition outcome {A} (r : result A * Z * list event) : result A := fst (fst r).
Definition cursor_after {A} (r : result A * Z * list event) : Z := snd (fst r).
Definition events {A} (r : result A * Z * list event) : list event := snd r.

(** The effects of one kind among the effects of a run, in order. *)
Fixpoint select {B} (f : event -> option B) (evs : list event) : list B :=
  match evs with
  | [] => []
  | e :: rest =>
      match f e with
      | Some b => b :: select f rest
      | None => select f rest
      end
  end.

Definition is_file_write (e : event) : option (string * list byte) :=
  match e with FileWrite p d => Some (p, d) | _ => None end.

Definition is_seek (e : event) : option Z :=
  match e with Seek o => Some o | _ => None end.

Definition is_saving (e : event) : option string :=
  match e with Print (InfoSavingFile n) => Some n | _ => None end.

(** The files a run has dumped. *)
Definition files_written (evs : list event) : list (string * list byte) :=
  select is_file_write evs.

(** The offsets a run has passed to [_fseeki64]. *)
Definition seeks (evs : list event) : list Z := select is_seek evs.

(** The names a run has announced with "Saving file". *)
Definition saved_names (evs : list event) : list string := select is_saving evs.

(** ** Text *)

Definition hex_digit (d : Z) : ascii :=
  ascii_of_nat (Z.to_nat (if d <? 10 then 48 + d else 55 + d)).

(** The last [n] hexadecimal digits of [v], upper case. *)
Fixpoint hex_digits (n : nat) (v : Z) : string :=
  match n with
  | O => EmptyString
  | S k => (hex_digits k (v / 16) ++ String (hex_digit (v mod 16)) EmptyString)%string
  end.

(** [sprintf_s(fileName, "%08X.unknown_file", unknownFileCount)]: [%X]
    takes an [unsigned int], the low 32 bits of the counter, which has at
    most 8 digits; the width 8 with the [0] flag pads it to exactly 8. *)
Definition sprintf_unknown_file (unknownFileCount : Z) : string :=
  (hex_digits 8 (unknownFileCount mod u32_max) ++ ".unknown_file")%string.

(** [s.c_str()] read as a C string: the characters before the first NUL. *)
Fixpoint c_str (s : string) : string :=
  match s with
  | EmptyString => EmptyString
  | String c rest => if Ascii.eqb c zero then EmptyString else String c (c_str rest)
  end.

Definition MAX_PATH : Z := 260.

(** ** The program *)

Section Program.

(** The bytes of the archive given on the command line. *)
Variable pak : list byte.

(** [std::sort(first, last, comp)] of the C++ library. *)
Variable std_sort : (file_entry -> file_entry -> bool) -> list file_entry -> list file_entry.

(** [aP_depack_asm(source, destination)] of aPLib: the bytes it stores at
    [destination]; their number is the value it returns. *)
Variable aP_depack_asm : list byte -> list byte.

(** Whether [fopen_s(&out, path, "wb")] succeeds. *)
Variable fopen_s : string -> bool.

(** [_fseeki64(f, offset, SEEK_SET)].  The parameter is a signed 64-bit
    integer: an unsigned offset of [2^63] or more arrives negative, the call
    fails and the cursor stays (its return value is not looked at). *)
Definition fseeki64 (offset : Z) : M unit :=
  fun pos => (Ok tt, if offset <? 2 ^ 63 then offset else pos, [Seek offset]).

(** [fread(buffer, 1, n, f)] into a zeroed buffer of [n] bytes: the bytes
    the file still has from the cursor on, at most [n], and the buffer's
    zeros after them; the cursor moves by what was read.  Every buffer the
    program reads into is zero-initialised. *)
Definition fread (n : Z) : M (list byte) :=
  fun pos =>
    let got := firstn (Z.to_nat n) (skipn (Z.to_nat pos) pak) in
    (Ok (got ++ repeat x00 (Z.to_nat n - List.length got)),
     pos + Z.of_nat (List.length got), []).

(** [uint32_t v = 0; fread(&v, 4, 1, f);] *)
Definition fread_u32 : M Z :=
  bs <- fread 4 ;; ret (le_uint bs).

(** *** save_compressed_file *)

(** The first loop of [save_compressed_file]: the chunk sizes table. *)
Fixpoint read_chunk_sizes (n : nat) (chunkSizes : list Z) : M (list Z) :=
  match n with
  | O => ret chunkSizes
  | S k =>
      chunk <- fread_u32 ;;
      read_chunk_sizes k (chunkSizes ++ [chunk])
  end.

(** The second loop: [x] runs over the indices of [chunkSizes].  The
    decompressor writes into [bufferDec], 4096 zero bytes; more than that
    overruns the buffer. *)
Fixpoint decompress_chunks (chunkSizes : list Z) (fileData : list byte) : M (list byte) :=
  match chunkSizes with
  | [] => ret fileData
  | size_x :: rest =>
      bufferEnc <- fread size_x ;;
      let written := aP_depack_asm bufferEnc in
      let decSize := Z.of_nat (List.length written) in
      if 4096 <? decSize then fail Abort
      else
        let bufferDec := (written ++ skipn (List.length written) (repeat x00 4096))%list in
        decompress_chunks rest (fileData ++ firstn (Z.to_nat decSize) bufferDec)
  end.

(** [sprintf_s(filePath, "dump//%s", name.c_str())] into [MAX_PATH]
    characters: a text that does not fit with its terminator ends the
    program. *)
Definition dump_path (name : string) : string := ("dump//" ++ c_str name)%string.

Definition read_payload_header : M (Z * Z) :=
  fileSize <- fread_u32 ;;
  chunks <- fread_u32 ;;
  ret (fileSize, chunks).

Definition save_compressed_file (name : string) (offset size : Z) : M unit :=
  fseeki64 offset ;;;
  hd <- read_payload_header ;;
  let chunks := snd hd in
  if 0 <? chunks then
    chunkSizes <- read_chunk_sizes (Z.to_nat chunks) [] ;;
    fileData <- decompress_chunks chunkSizes [] ;;
    let filePath := dump_path name in
    if MAX_PATH <=? Z.of_nat (String.length filePath) then fail Abort
    else if fopen_s filePath then emit (FileWrite filePath fileData)
    else printf_s (ErrDumpFailed filePath)
  else ret tt.

(** *** process_pak_unsupported *)

Definition process_pak_unsupported : M unit := printf_s ErrUnsupported.

(** *** process_pak_karl *)

(** The comparison handed to [std::sort]. *)
Definition position_less (a b : file_entry) : bool := get_1 a <? get_1 b.

(** The [do ... while (count > 0)] loop over the entry table; [more] is
    the number of iterations after this one, [count - 1]. *)
Fixpoint read_entries (more : nat) (fileEntries : list file_entry) : M (list file_entry) :=
  bs <- fread sizeof_pakfileentry_t ;;
  let entry := entry_of_bytes bs in
  printf_s (InfoEntryFound (Crc entry) (Position entry) (Size entry)) ;;;
  let fileEntries := (fileEntries ++ [(Crc entry, Position entry, Size entry)])%list in
  match more with
  | O => ret fileEntries
  | S k => read_entries k fileEntries
  end.

(** Lines 161-197: the entry table, read and sorted. *)
Definition read_entry_table (header : pakheader_t) : M (Z * Z * list file_entry) :=
  fseeki64 (EntriesOffset header) ;;;
  eCount <- fread_u32 ;;
  sCount <- fread_u32 ;;
  printf_s (InfoEntryCount eCount) ;;;
  printf_s (InfoSpecialCount sCount) ;;;
  if 0 <? eCount then
    printf_s InfoParsingEntries ;;;
    fileEntries <- read_entries (Z.to_nat (eCount - 1)) [] ;;
    ret (eCount, sCount, std_sort position_less fileEntries)
  else ret (eCount, sCount, []).

(** The [do ... while (sSize < tSize)] loop over the string table.
    [sSize] is a [uint32_t]: the sum is truncated when it is stored. *)
Fixpoint read_string_entries (fuel : nat) (tSize sSize : Z)
    (stringEntries : list string_entry) : M (list string_entry) :=
  match fuel with
  | O => fail OutOfFuel
  | S k =>
      bs <- fread sizeof_pakfilename_t ;;
      let name := filename_of_bytes bs in
      fname <- fread (NameSize name) ;;
      let stringEntries := (stringEntries ++ [(FileId name, string_of_list_byte fname)])%list in
      let sSize := (sSize + (sizeof_pakfilename_t + NameSize name)) mod u32_max in
      if sSize <? tSize then read_string_entries k tSize sSize stringEntries
      else ret stringEntries
  end.

(** [(uint64_t)std::get<1>(e) * header->Unknown00], computed in 64 bits. *)
Definition byte_offset (header : pakheader_t) (e : file_entry) : Z :=
  (get_1 e * Unknown00 header) mod u64_max.

(** [fileEntries.back()] and [fileEntries.pop_back()]. *)
Definition back (fileEntries : list file_entry) : file_entry := last fileEntries (0, 0, 0).
Definition pop_back (fileEntries : list file_entry) : list file_entry := removelast fileEntries.

(** Lines 256-268 of the lambda: the name of an entry and the counter of
    unknown files after it. *)
Definition find_if {A} (p : A -> bool) (l : list A) : option A := find p l.

Definition lookup_name (stringEntries : list string_entry) (e : file_entry) : string :=
  match find_if (fun se => fst se =? get_0 e) stringEntries with
  | Some sentry => snd sentry
  | None => EmptyString
  end.

Definition resolve_name (stringEntries : list string_entry) (unknownFileCount : Z)
    (e : file_entry) : string * Z :=
  let name := lookup_name stringEntries e in
  if (String.length name =? 0)%nat
  then (sprintf_unknown_file unknownFileCount, (unknownFileCount + 1) mod u64_max)
  else (name, unknownFileCount).

(** The [std::for_each] over the entries that are left. *)
Fixpoint dump_entries (header : pakheader_t) (stringEntries : list string_entry)
    (unknownFileCount : Z) (fileEntries : list file_entry) : M unit :=
  match fileEntries with
  | [] => ret tt
  | e :: rest =>
      let '(name, unknownFileCount) := resolve_name stringEntries unknownFileCount e in
      printf_s (InfoSavingFile (c_str name)) ;;;
      save_compressed_file name (byte_offset header e) (get_2 e) ;;;
      dump_entries header stringEntries unknownFileCount rest
  end.

(** Lines 250-274. *)
Definition dump_files (header : pakheader_t) (stringEntries : list string_entry)
    (fileEntries : list file_entry) : M unit :=
  emit (CreateDirectory "dump") ;;;
  dump_entries header stringEntries 0 fileEntries.

(** Lines 206-248, with what follows them: the [return] on an empty string
    table leaves the function, so the dump is under the other branch. *)
Definition process_string_table (fuel : nat) (header : pakheader_t)
    (fileEntries : list file_entry) : M unit :=
  printf_s InfoParsingStrings ;;;
  let fileEntry := back fileEntries in
  let fileEntries := pop_back fileEntries in
  fseeki64 (byte_offset header fileEntry) ;;;
  tSize <- fread_u32 ;;
  unk00 <- fread_u32 ;;
  if tSize =? 0 then printf_s ErrInvalidStringTable
  else
    stringEntries <- read_string_entries fuel tSize 0 [] ;;
    dump_files header stringEntries fileEntries.

(** Lines 158-274: what [process_pak_karl] does once its arguments have
    passed the check. *)
Definition process_tables (fuel : nat) (header : pakheader_t) : M unit :=
  tbl <- read_entry_table header ;;
  let '(eCount, sCount, fileEntries) := tbl in
  (if 0 <? sCount
   then printf_s InfoParsingSpecial ;;; printf_s WarnSpecialUnsupported
   else ret tt) ;;;
  if 0 <? eCount then process_string_table fuel header fileEntries
  else dump_files header [] fileEntries.

(** [f] is not null: [main] calls with the file it has opened. *)
Definition process_pak_karl (fuel : nat) (fileSize : Z) (header : pakheader_t) : M unit :=
  if (fileSize =? 0) || (IsValid header =? 0) then printf_s ErrInvalidPakInformation
  else
    printf_s InfoProcessingKarl ;;;
    process_tables fuel header.

(** *** main *)

(** What the command line names. *)
Inductive argument :=
| NoInputFile   (* argc < 2, or GetFileAttributes fails *)
| CannotOpen    (* fopen_s fails *)
| Archive.      (* the file opens; its bytes are [pak] *)

Definition main (fuel : nat) (arg : argument) : M unit :=
  printf_s Banner ;;;
  match arg with
  | NoInputFile => printf_s ErrNoInputFile
  | CannotOpen => printf_s ErrOpenFailed
  | Archive =>
      let size := Z.of_nat (List.length pak) in
      if size <? sizeof_pakheader_t then printf_s ErrInvalidFileSize
      else
        hb <- fread sizeof_pakheader_t ;;
        let header := header_of_bytes hb in
        (if Signature header =? PakFileType_value KaikoCompressedLE
         then process_pak_karl fuel size header
         else process_pak_unsupported) ;;;
        printf_s Done
  end.

End Program.

(** ** The layout of an archive

    The inverse direction of the reads above: the bytes of a structure as
    the format stores them.  The theorems below put these bytes in the
    archive and run the program on them. *)

Definition encode_header (h : pakheader_t) : list byte :=
  le_bytes 4 (Signature h) ++ le_bytes 4 (IsValid h) ++ le_bytes 4 (Unknown00 h)
  ++ le_bytes 4 (Unknown01 h) ++ le_bytes 8 (EntriesOffset h)
  ++ le_bytes 4 (Unknown02 h) ++ le_bytes 4 (Unknown03 h).

Definition encode_entry (e : file_entry) : list byte :=
  le_bytes 4 (get_0 e) ++ le_bytes 4 (get_1 e) ++ le_bytes 4 (get_2 e).

(** A name record: the 8 bytes of [pakfilename_t] and the name. *)
Definition encode_name_record (r : string_entry) : list byte :=
  le_bytes 4 (fst r) ++ le_bytes 4 (Z.of_nat (String.length (snd r)))
  ++ list_byte_of_string (snd r).

Definition name_record_size (r : string_entry) : Z :=
  sizeof_pakfilename_t + Z.of_nat (String.length (snd r)).

Definition name_table_size (rs : list string_entry) : Z :=
  fold_right (fun r acc => name_record_size r + acc) 0 rs.

(** A chunked payload: size, chunk count, chunk sizes, chunks. *)
Definition encode_payload (fileSize : Z) (chunks : list (list byte)) : list byte :=
  le_bytes 4 fileSize ++ le_bytes 4 (Z.of_nat (List.length chunks))
  ++ List.concat (map (fun c => le_bytes 4 (Z.of_nat (List.length c))) chunks)
  ++ List.concat chunks.

(** The archive holds the bytes [bs] from the offset [pos] on. *)
Definition stored_at (pak : list byte) (pos : Z) (bs : list byte) : Prop :=
  exists pre rest, pak = (pre ++ bs ++ rest)%list /\ pos = Z.of_nat (List.length pre).

(** ** Sorting

    What [std::sort] promises is that the range ends up ordered by the
    comparison and holds the same elements.  An insertion that keeps equal
    elements in their order meets it; the [std::sort] of the GNU C++ library,
    embedded below, does not keep them in their order. *)

(** [x] goes in front of the elements it is not greater than. *)
Fixpoint insert_before (comp : file_entry -> file_entry -> bool) (x : file_entry)
    (l : list file_entry) : list file_entry :=
  match l with
  | [] => [x]
  | y :: rest => if comp y x then y :: insert_before comp x rest else x :: y :: rest
  end.

(** Insertion from the back of the range, an element in front of its
    equals: equal elements keep their order. *)
Definition stable_sort (comp : file_entry -> file_entry -> bool)
    (l : list file_entry) : list file_entry :=
  fold_right (insert_before comp) [] l.

(** Ascending by position. *)
Definition ascending (l : list file_entry) : Prop :=
  StronglySorted (fun a b => get_1 a <= get_1 b) l.

(** What the C++ standard promises of [std::sort] with the comparison of
    the program. *)
Definition sort_contract
    (srt : (file_entry -> file_entry -> bool) -> list file_entry -> list file_entry) : Prop :=
  forall l, Permutation l (srt position_less l) /\ ascending (srt position_less l).

(** Following the words of the specification: the sorted sequence keeps
    entries of equal position in the order in which they were read. *)
Definition ties_in_read_order (read sorted : list file_entry) : Prop :=
  sorted = stable_sort position_less read.

(** *** std::sort of the GNU C++ library

    [std::sort] as libstdc++ implements it (bits/stl_algo.h and
    bits/stl_heap.h, release 12), function by function under the library's
    names without their leading underscores.  The range is a list, an
    iterator is an index into it, and a function that changes the range
    returns the changed list.  A loop of the library that ends because it
    meets a sentinel is given the length of the range as its bound. *)
Module libstdcxx.

Section Sort.

Open Scope nat_scope.

(** [_Compare __comp], on the elements. *)
Variable comp : file_entry -> file_entry -> bool.

(** [*(first + i)], read and written. *)
Definition at_ (a : list file_entry) (i : nat) : file_entry := nth i a (0, 0, 0)%Z.

Fixpoint store (a : list file_entry) (i : nat) (x : file_entry) : list file_entry :=
  match a, i with
  | [], _ => []
  | _ :: rest, O => x :: rest
  | y :: rest, S k => y :: store rest k x
  end.

Definition iter_swap (a : list file_entry) (i j : nat) : list file_entry :=
  store (store a i (at_ a j)) j (at_ a i).

(** [__move_median_to_first(result, a, b, c, comp)]. *)
Definition move_median_to_first (a : list file_entry) (result ia ib ic : nat)
    : list file_entry :=
  if comp (at_ a ia) (at_ a ib) then
    if comp (at_ a ib) (at_ a ic) then iter_swap a result ib
    else if comp (at_ a ia) (at_ a ic) then iter_swap a result ic
    else iter_swap a result ia
  else if comp (at_ a ia) (at_ a ic) then iter_swap a result ia
  else if comp (at_ a ib) (at_ a ic) then iter_swap a result ic
  else iter_swap a result ib.

(** [while (comp(first, pivot)) ++first;] *)
Fixpoint scan_up (bound : nat) (a : list file_entry) (first pivot : nat) : nat :=
  match bound with
  | O => first
  | S k => if comp (at_ a first) (at_ a pivot) then scan_up k a (S first) pivot else first
  end.

(** [while (comp(pivot, last)) --last;] *)
Fixpoint scan_down (bound : nat) (a : list file_entry) (last pivot : nat) : nat :=
  match bound with
  | O => last
  | S k => if comp (at_ a pivot) (at_ a last) then scan_down k a (last - 1) pivot else last
  end.

(** [__unguarded_partition(first, last, pivot, comp)]: the range and the
    cut. *)
Fixpoint unguarded_partition (bound : nat) (a : list file_entry) (first last pivot : nat)
    : list file_entry * nat :=
  match bound with
  | O => (a, first)
  | S k =>
      let first := scan_up (List.length a) a first pivot in
      let last := last - 1 in
      let last := scan_down (List.length a) a last pivot in
      if negb (first <? last) then (a, first)
      else unguarded_partition k (iter_swap a first last) (S first) last pivot
  end.

(** [__unguarded_partition_pivot(first, last, comp)]. *)
Definition unguarded_partition_pivot (a : list file_entry) (first last : nat)
    : list file_entry * nat :=
  let mid := first + (last - first) / 2 in
  let a := move_median_to_first a first (first + 1) mid (last - 1) in
  unguarded_partition (List.length a) a (first + 1) last first.

(** The loop of [__unguarded_linear_insert(last, comp)]. *)
Fixpoint linear_insert_loop (bound : nat) (a : list file_entry) (val : file_entry)
    (last next : nat) : list file_entry :=
  match bound with
  | O => store a last val
  | S k =>
      if comp val (at_ a next)
      then linear_insert_loop k (store a last (at_ a next)) val next (next - 1)
      else store a last val
  end.

Definition unguarded_linear_insert (a : list file_entry) (last : nat) : list file_entry :=
  linear_insert_loop (List.length a) a (at_ a last) last (last - 1).

(** [_GLIBCXX_MOVE_BACKWARD3(first, first + n, first + n + 1)]. *)
Fixpoint move_backward (a : list file_entry) (first n : nat) : list file_entry :=
  match n with
  | O => a
  | S m => move_backward (store a (first + S m) (at_ a (first + m))) first m
  end.

(** The [for] loop of [__insertion_sort(first, last, comp)] from [i] on;
    [n] is [last - i]. *)
Fixpoint insertion_sort_loop (n : nat) (a : list file_entry) (first i : nat)
    : list file_entry :=
  match n with
  | O => a
  | S m =>
      let a :=
        if comp (at_ a i) (at_ a first) then
          let val := at_ a i in
          store (move_backward a first (i - first)) first val
        else unguarded_linear_insert a i in
      insertion_sort_loop m a first (S i)
  end.

Definition insertion_sort (a : list file_entry) (first last : nat) : list file_entry :=
  if first =? last then a
  else insertion_sort_loop (last - (first + 1)) a first (first + 1).

(** The [for] loop of [__unguarded_insertion_sort(first, last, comp)];
    [n] is [last - i]. *)
Fixpoint unguarded_insertion_sort_loop (n : nat) (a : list file_entry) (i : nat)
    : list file_entry :=
  match n with
  | O => a
  | S m => unguarded_insertion_sort_loop m (unguarded_linear_insert a i) (S i)
  end.

Definition unguarded_insertion_sort (a : list file_entry) (first last : nat)
    : list file_entry :=
  unguarded_insertion_sort_loop (last - first) a first.

(** [enum { _S_threshold = 16 };] *)
Definition S_threshold : nat := 16.

(** [__final_insertion_sort(first, last, comp)]. *)
Definition final_insertion_sort (a : list file_entry) (first last : nat)
    : list file_entry :=
  if S_threshold <? last - first then
    unguarded_insertion_sort (insertion_sort a first (first + S_threshold))
      (first + S_threshold) last
  else insertion_sort a first last.

(** The loop of [__push_heap(first, holeIndex, topIndex, value, comp)]. *)
Fixpoint push_heap_loop (bound : nat) (a : list file_entry) (first holeIndex topIndex : nat)
    (value : file_entry) : list file_entry :=
  let parent := (holeIndex - 1) / 2 in
  match bound with
  | O => store a (first + holeIndex) value
  | S k =>
      if (topIndex <? holeIndex) && comp (at_ a (first + parent)) value
      then push_heap_loop k (store a (first + holeIndex) (at_ a (first + parent)))
             first parent topIndex value
      else store a (first + holeIndex) value
  end.

Definition push_heap (a : list file_entry) (first holeIndex topIndex : nat)
    (value : file_entry) : list file_entry :=
  push_heap_loop (S holeIndex) a first holeIndex topIndex value.

(** The [while] loop of [__adjust_heap(first, holeIndex, len, value, comp)]:
    the range, the hole and the second child when it ends. *)
Fixpoint adjust_heap_loop (bound : nat) (a : list file_entry)
    (first holeIndex secondChild len : nat) : list file_entry * nat * nat :=
  match bound with
  | O => (a, holeIndex, secondChild)
  | S k =>
      if secondChild <? (len - 1) / 2 then
        let secondChild := 2 * (secondChild + 1) in
        let secondChild :=
          if comp (at_ a (first + secondChild)) (at_ a (first + (secondChild - 1)))
          then secondChild - 1 else secondChild in
        adjust_heap_loop k (store a (first + holeIndex) (at_ a (first + secondChild)))
          first secondChild secondChild len
      else (a, holeIndex, secondChild)
  end.

Definition adjust_heap (a : list file_entry) (first holeIndex len : nat)
    (value : file_entry) : list file_entry :=
  let topIndex := holeIndex in
  let '(a, holeIndex, secondChild) := adjust_heap_loop len a first holeIndex holeIndex len in
  let '(a, holeIndex) :=
    if Nat.even len && (secondChild =? (len - 2) / 2) then
      let secondChild := 2 * (secondChild + 1) in
      (store a (first + holeIndex) (at_ a (first + (secondChild - 1))), secondChild - 1)
    else (a, holeIndex) in
  push_heap a first holeIndex topIndex value.

(** [__pop_heap(first, last, result, comp)]. *)
Definition pop_heap (a : list file_entry) (first last result : nat) : list file_entry :=
  let value := at_ a result in
  let a := store a result (at_ a first) in
  adjust_heap a first 0 (last - first) value.

(** The loop of [__make_heap(first, last, comp)], from [parent] down
    to 0. *)
Fixpoint make_heap_loop (a : list file_entry) (first len parent : nat) : list file_entry :=
  let a := adjust_heap a first parent len (at_ a (first + parent)) in
  match parent with
  | O => a
  | S p => make_heap_loop a first len p
  end.

Definition make_heap (a : list file_entry) (first last : nat) : list file_entry :=
  if last - first <? 2 then a
  else make_heap_loop a first (last - first) ((last - first - 2) / 2).

(** The [for] loop of [__heap_select(first, middle, last, comp)]; [n] is
    [last - i]. *)
Fixpoint heap_select_loop (n : nat) (a : list file_entry) (first middle i : nat)
    : list file_entry :=
  match n with
  | O => a
  | S m =>
      let a := if comp (at_ a i) (at_ a first) then pop_heap a first middle i else a in
      heap_select_loop m a first middle (S i)
  end.

Definition heap_select (a : list file_entry) (first middle last : nat) : list file_entry :=
  heap_select_loop (last - middle) (make_heap a first middle) first middle middle.

(** The loop of [__sort_heap(first, last, comp)]; [n] is [last - first]. *)
Fixpoint sort_heap_loop (n : nat) (a : list file_entry) (first : nat) : list file_entry :=
  match n with
  | O => a
  | S m =>
      if 1 <? S m then sort_heap_loop m (pop_heap a first (first + m) (first + m)) first
      else a
  end.

Definition sort_heap (a : list file_entry) (first last : nat) : list file_entry :=
  sort_heap_loop (last - first) a first.

(** [__partial_sort(first, middle, last, comp)]. *)
Definition partial_sort (a : list file_entry) (first middle last : nat) : list file_entry :=
  sort_heap (heap_select a first middle last) first middle.

(** [__introsort_loop(first, last, depth_limit, comp)]: a turn of its
    [while] loop lowers the depth limit and goes on with the front part. *)
Fixpoint introsort_loop (depth_limit : nat) (a : list file_entry) (first last : nat)
    : list file_entry :=
  if S_threshold <? last - first then
    match depth_limit with
    | O => partial_sort a first last last
    | S depth_limit =>
        let '(a, cut) := unguarded_partition_pivot a first last in
        let a := introsort_loop depth_limit a cut last in
        introsort_loop depth_limit a first cut
    end
  else a.

(** [__sort(first, last, comp)], which [std::sort] calls; [__lg] is the
    binary logarithm rounded down. *)
Definition sort (a : list file_entry) : list file_entry :=
  let first := 0 in
  let last := List.length a in
  if first =? last then a
  else
    let a := introsort_loop (Nat.log2 (last - first) * 2) a first last in
    final_insertion_sort a first last.

End Sort.

End libstdcxx.

(** ** A small archive

    One file of one chunk at position 2, the string table at position 3 and
    the entry table behind them; positions count units of 16 bytes. *)

Definition sample_header : pakheader_t :=
  {| Signature := PakFileType_value KaikoCompressedLE; IsValid := 1;
     Unknown00 := 16; Unknown01 := 256; EntriesOffset := 80;
     Unknown02 := 0; Unknown03 := 0 |}.

Definition sample_chunk : list byte := [x68; x65; x79].

Definition sample_names : list string_entry := [(170, "a.txt"%string)].

Definition sample_entries : list file_entry := [(0, 3, 0); (170, 2, 3)].

Definition pad_to (n : nat) (bs : list byte) : list byte :=
  bs ++ repeat x00 (n - List.length bs).

Definition sample_pak : list byte :=
  pad_to 48 (encode_header sample_header ++ encode_payload 3 [sample_chunk])
  ++ pad_to 32 (le_bytes 4 (name_table_size sample_names) ++ le_bytes 4 0
                ++ List.concat (map encode_name_record sample_names))
  ++ le_bytes 4 2 ++ le_bytes 4 0 ++ List.concat (map encode_entry sample_entries).

(** An entry table with twenty entries, all at the same position, with
    the ids 1 to 20 in the order of the table; the table is right behind
    the header. *)
Definition tie_header : pakheader_t :=
  {| Signature := PakFileType_value KaikoCompressedLE; IsValid := 1;
     Unknown00 := 16; Unknown01 := 256; EntriesOffset := 32;
     Unknown02 := 0; Unknown03 := 0 |}.

Definition tie_entries : list file_entry :=
  map (fun id => (id, 5, 0))
      [1; 2; 3; 4; 5; 6; 7; 8; 9; 10; 11; 12; 13; 14; 15; 16; 17; 18; 19; 20].

Definition tie_pak : list byte :=
  encode_header tie_header ++ le_bytes 4 20 ++ le_bytes 4 0
  ++ List.concat (map encode_entry tie_entries).

(** The ids in the order in which the GNU library's [std::sort] leaves
    these entries. *)
Definition tie_entries_sorted : list file_entry :=
  map (fun id => (id, 5, 0))
      [11; 20; 19; 18; 17; 16; 15; 14; 13; 12; 1; 10; 9; 8; 7; 6; 5; 4; 3; 2].

(** The small archive with a second name record for the same id. *)
Definition dup_names : list string_entry := [(170, "a.txt"%string); (170, "b.txt"%string)].

Definition dup_header : pakheader_t :=
  {| Signature := PakFileType_value KaikoCompressedLE; IsValid := 1;
     Unknown00 := 16; Unknown01 := 256; EntriesOffset := 96;
     Unknown02 := 0; Unknown03 := 0 |}.

Definition dup_pak : list byte :=
  pad_to 48 (encode_header dup_header ++ encode_payload 3 [sample_chunk])
  ++ pad_to 48 (le_bytes 4 (name_table_size dup_names) ++ le_bytes 4 0
                ++ List.concat (map encode_name_record dup_names))
  ++ le_bytes 4 2 ++ le_bytes 4 0 ++ List.concat (map encode_entry sample_entries).

(** A decompressor for the examples: chunks stored as they are. *)
Definition stored (bs : list byte) : list byte := bs.

Definition always_opens (path : string) : bool := true.

(** ** Observations *)

(** The fields of an entry fit 32 bits. *)
Definition u32_entry (e : file_entry) : Prop :=
  0 <= get_0 e < u32_max /\ 0 <= get_1 e < u32_max /\ 0 <= get_2 e < u32_max.

(** The console line of the entry loop for an entry. *)
Definition entry_found (e : file_entry) : event :=
  Print (InfoEntryFound (get_0 e) (get_1 e) (get_2 e)).

(** A computation without effects of the kind [f]. *)
Definition silent {A B} (f : event -> option B) (m : M A) : Prop :=
  forall pos, select f (events (m pos)) = [].

(** The names the [std::for_each] gives to the entries, in order, from
    the counter value [unknownFileCount] on. *)
Fixpoint assigned_names (stringEntries : list string_entry) (unknownFileCount : Z)
    (fileEntries : list file_entry) : list string :=
  match fileEntries with
  | [] => []
  | e :: rest =>
      let '(name, unknownFileCount) := resolve_name stringEntries unknownFileCount e in
      name :: assigned_names stringEntries unknownFileCount rest
  end.

(** The lookup of the lambda finds no name for the entry: no record has its
    id, or the first one that has it carries an empty name. *)
Definition nameless (stringEntries : list string_entry) (e : file_entry) : bool :=
  (String.length (lookup_name stringEntries e) =? 0)%nat.



(** Following the words of the specification: a mapping from content id to
    name built by writing the records in turn, a later record replacing an
    earlier one of the same id. *)
Definition last_write_wins (stringEntries : list string_entry) (id : Z) : option string :=
  fold_left (fun found se => if fst se =? id then Some (snd se) else found)
            stringEntries None.

(** The console lines about special entries. *)
Definition special_lines (sCount : Z) : list event :=
  if 0 <? sCount then [Print InfoParsingSpecial; Print WarnSpecialUnsupported] else [].

(** The offset of an entry without the 64-bit truncation. *)
Definition scaled_position (header : pakheader_t) (e : file_entry) : Z :=
  get_1 e * Unknown00 header.

(** ** Parts of [save_compressed_file]

    What [save_compressed_file] does before it opens the output file:
    nothing to write when the chunk count is 0, the reassembled bytes
    otherwise (once the path has been formatted). *)
Definition payload_data (pak : list byte) (aP_depack_asm : list byte -> list byte)
    (name : string) (offset : Z) : M (option (list byte)) :=
  fseeki64 offset ;;;
  hd <- read_payload_header pak ;;
  if 0 <? snd hd then
    chunkSizes <- read_chunk_sizes pak (Z.to_nat (snd hd)) [] ;;
    fileData <- decompress_chunks pak aP_depack_asm chunkSizes [] ;;
    if MAX_PATH <=? Z.of_nat (String.length (dump_path name)) then fail Abort
    else ret (Some fileData)
  else ret None.

(** The rest of it: the output file, or the console line when it does not
    open. *)
Definition write_out (fopen_s : string -> bool) (name : string)
    (data : option (list byte)) : M unit :=
  match data with
  | Some fileData =>
      if fopen_s (dump_path name) then emit (FileWrite (dump_path name) fileData)
      else printf_s (ErrDumpFailed (dump_path name))
  | None => ret tt
  end.

(** The fields of a header fit their types. *)
Definition header_in_range (h : pakheader_t) : Prop :=
  0 <= Signature h < u32_max /\ 0 <= IsValid h < u32_max
  /\ 0 <= Unknown00 h < u32_max /\ 0 <= Unknown01 h < u32_max
  /\ 0 <= EntriesOffset h < u64_max
  /\ 0 <= Unknown02 h < u32_max /\ 0 <= Unknown03 h < u32_max.

(** An archive of the right signature whose validity flag is 0. *)
Definition invalid_pak : list byte :=
  encode_header {| Signature := PakFileType_value KaikoCompressedLE; IsValid := 0;
                   Unknown00 := 16; Unknown01 := 256; EntriesOffset := 32;
                   Unknown02 := 0; Unknown03 := 0 |}.

(** ** Relations between runs *)

(** Two runs that agree but for the files that did not open in the first:
    same outcome, same cursor, and the files of the first are those of the
    second whose path opens. *)
Definition same_but_unopened {A} (fopen_s : string -> bool)
    (r1 r2 : result A * Z * list event) : Prop :=
  outcome r1 = outcome r2
  /\ cursor_after r1 = cursor_after r2
  /\ files_written (events r1)
     = filter (fun f => fopen_s (fst f)) (files_written (events r2)).

(** Every file of every run of a computation satisfies [P]. *)
Definition writes_only {A} (P : string * list byte -> Prop) (m : M A) : Prop :=
  forall pos, Forall P (files_written (events (m pos))).

(** A path [sprintf_s] has made from "dump//%s" within [MAX_PATH]. *)
Definition path_under_dump (f : string * list byte) : Prop :=
  (exists name, fst f = ("dump//" ++ name)%string)
  /\ Z.of_nat (String.length (fst f)) < MAX_PATH.

(** No run of a computation writes more than [n] files. *)
Definition writes_at_most {A} (n : nat) (m : M A) : Prop :=
  forall pos, (List.length (files_written (events (m pos))) <= n)%nat.

(** ** A well-formed archive *)

(** The entry table with the entries [es] is stored where the header says. *)
Definition entry_table_stored (pak : list byte) (header : pakheader_t)
    (sCount : Z) (es : list file_entry) : Prop :=
  EntriesOffset header < 2 ^ 63
  /\ es <> [] /\ Z.of_nat (List.length es) < u32_max /\ 0 <= sCount < u32_max
  /\ Forall u32_entry es
  /\ stored_at pak (EntriesOffset header)
       (le_bytes 4 (Z.of_nat (List.length es)) ++ le_bytes 4 sCount
        ++ List.concat (map encode_entry es)).

(** The string table with the records [rs] is stored at the offset of
    the entry [locator]: its size, 4 more bytes, and the records. *)
Definition string_table_stored (pak : list byte) (header : pakheader_t)
    (locator : file_entry) (unk00 : Z) (rs : list string_entry) : Prop :=
  scaled_position header locator < 2 ^ 63
  /\ 0 < name_table_size rs < u32_max /\ 0 <= unk00 < u32_max
  /\ Forall (fun r => 0 <= fst r < u32_max) rs
  /\ stored_at pak (scaled_position header locator)
       (le_bytes 4 (name_table_size rs) ++ le_bytes 4 unk00
        ++ List.concat (map encode_name_record rs)).

(** The payload of the entry [e] is stored at its offset as the chunks
    [snd content]; each chunk decompresses into the 4096 bytes of the buffer,
    the path of the output file fits and the file opens. *)
Definition file_stored (pak : list byte) (aP_depack_asm : list byte -> list byte)
    (fopen_s : string -> bool) (header : pakheader_t)
    (content : file_entry -> Z * list (list byte)) (e : file_entry) (name : string) : Prop :=
  stored_at pak (scaled_position header e)
    (encode_payload (fst (content e)) (snd (content e)))
  /\ scaled_position header e < 2 ^ 63
  /\ 0 <= fst (content e) < u32_max
  /\ snd (content e) <> []
  /\ Z.of_nat (List.length (snd (content e))) < u32_max
  /\ Forall (fun c => Z.of_nat (List.length c) < u32_max) (snd (content e))
  /\ Forall (fun c => Z.of_nat (List.length (aP_depack_asm c)) <= 4096) (snd (content e))
  /\ Z.of_nat (String.length (dump_path name)) < MAX_PATH
  /\ fopen_s (dump_path name) = true.

(** The file that results from an entry under a name. *)
Definition extracted (aP_depack_asm : list byte -> list byte)
    (content : file_entry -> Z * list (list byte))
    (en : file_entry * string) : string * list byte :=
  (dump_path (snd en), List.concat (map aP_depack_asm (snd (content (fst en))))).

(** The content of the file of the small archive. *)
Definition sample_content (e : file_entry) : Z * list (list byte) := (3, [sample_chunk]).

(** A string table whose one name holds a NUL character: "a", NUL, "b". *)
Definition nul_names : list string_entry :=
  [(170, String "a" (String zero (String "b" EmptyString)))].

(** * Properties *)

(** ** Bytes *)

Lemma byte_val_range (b : byte) : 0 <= byte_val b < 256.
Proof.
  unfold byte_val. pose proof (Byte.to_N_bounded b). lia.
Qed.

Lemma byte_val_of_Z (v : Z) : byte_val (byte_of_Z v) = v mod 256.
Proof.
  unfold byte_val, byte_of_Z.
  assert (Hr : 0 <= v mod 256 < 256) by (apply Z.mod_pos_bound; lia).
  destruct (Byte.of_N (Z.to_N (v mod 256))) as [b|] eqn:E.
  - apply Byte.to_of_N in E. rewrite E. lia.
  - apply Byte.of_N_None_iff in E. lia.
Qed.

Lemma le_bytes_length (n : nat) (v : Z) : List.length (le_bytes n v) = n.
Proof.
  revert v. induction n as [|n IH]; intros v; simpl; [reflexivity|].
  now rewrite IH.
Qed.

Lemma le_uint_range (bs : list byte) : 0 <= le_uint bs < 256 ^ Z.of_nat (List.length bs).
Proof.
  induction bs as [|b bs IH].
  - simpl. lia.
  - cbn [le_uint List.length]. rewrite Nat2Z.inj_succ, Z.pow_succ_r by lia.
    pose proof (byte_val_range b). nia.
Qed.

Lemma le_uint_le_bytes (n : nat) (v : Z) : le_uint (le_bytes n v) = v mod 256 ^ Z.of_nat n.
Proof.
  revert v. induction n as [|n IH]; intros v.
  - simpl. now rewrite Z.mod_1_r.
  - cbn [le_bytes le_uint]. rewrite IH, byte_val_of_Z.
    rewrite Nat2Z.inj_succ, Z.pow_succ_r by lia.
    rewrite Z.rem_mul_r by lia. reflexivity.
Qed.

Lemma le_uint_le_bytes_4 (v : Z) : 0 <= v < u32_max -> le_uint (le_bytes 4 v) = v.
Proof.
  intros H. rewrite le_uint_le_bytes. apply Z.mod_small. exact H.
Qed.


Lemma list_byte_of_string_length (s : string) :
  List.length (list_byte_of_string s) = String.length s.
Proof.
  unfold list_byte_of_string. rewrite length_map.
  induction s as [|c s IH]; simpl; [reflexivity | now rewrite IH].
Qed.

(** ** The monad *)

Lemma bind_read {A B} (m : M A) (f : A -> M B) (pos pos' : Z) (a : A) :
  m pos = (Ok a, pos', []) -> bind m f pos = f a pos'.
Proof.
  intros H. unfold bind. rewrite H. destruct (f a pos') as [[r p] ev]. reflexivity.
Qed.

Lemma bind_ok {A B} (m : M A) (f : A -> M B) (pos pos' : Z) (a : A) (ev : list event) :
  m pos = (Ok a, pos', ev) ->
  bind m f pos = (outcome (f a pos'), cursor_after (f a pos'), ev ++ events (f a pos')).
Proof.
  intros H. unfold bind. rewrite H. destruct (f a pos') as [[r p] ev']. reflexivity.
Qed.


Lemma select_app {B} (f : event -> option B) (a b : list event) :
  select f (a ++ b) = (select f a ++ select f b)%list.
Proof.
  induction a as [|e a IH]; simpl; [reflexivity|].
  destruct (f e); simpl; now rewrite IH.
Qed.

Lemma seeks_app (a b : list event) : seeks (a ++ b) = (seeks a ++ seeks b)%list.
Proof. apply select_app. Qed.

Lemma saved_names_app (a b : list event) :
  saved_names (a ++ b) = (saved_names a ++ saved_names b)%list.
Proof. apply select_app. Qed.


Lemma outcome_bind {A B} (m : M A) (f : A -> M B) (pos : Z) :
  outcome (bind m f pos)
  = match outcome (m pos) with
    | Ok a => outcome (f a (cursor_after (m pos)))
    | Err e => Err e
    end.
Proof.
  unfold bind, outcome, cursor_after. destruct (m pos) as [[[a|e] p] ev]; simpl.
  - now destruct (f a p) as [[r p'] ev'].
  - reflexivity.
Qed.

Lemma events_bind {A B} (m : M A) (f : A -> M B) (pos : Z) :
  events (bind m f pos)
  = (events (m pos)
     ++ match outcome (m pos) with
        | Ok a => events (f a (cursor_after (m pos)))
        | Err _ => []
        end)%list.
Proof.
  unfold bind, outcome, cursor_after, events. destruct (m pos) as [[[a|e] p] ev]; simpl.
  - now destruct (f a p) as [[r p'] ev'].
  - now rewrite app_nil_r.
Qed.

(** ** Reading what the archive stores *)

Section Reading.

Variable pak : list byte.

Lemma stored_at_app_l (pos : Z) (a b : list byte) :
  stored_at pak pos (a ++ b) -> stored_at pak pos a.
Proof.
  intros (pre & rest & E & P). exists pre, (b ++ rest)%list. split; [|exact P].
  now rewrite E, <- app_assoc.
Qed.

Lemma stored_at_app_r (pos : Z) (a b : list byte) :
  stored_at pak pos (a ++ b) -> stored_at pak (pos + Z.of_nat (List.length a)) b.
Proof.
  intros (pre & rest & E & P). exists (pre ++ a)%list, rest. split.
  - now rewrite E, <- !app_assoc.
  - rewrite length_app. lia.
Qed.


Lemma fread_stored (pos : Z) (bs : list byte) :
  stored_at pak pos bs ->
  fread pak (Z.of_nat (List.length bs)) pos = (Ok bs, pos + Z.of_nat (List.length bs), []).
Proof.
  intros (pre & rest & E & P). unfold fread. subst pos. rewrite !Nat2Z.id.
  rewrite E, skipn_app, skipn_all, Nat.sub_diag. simpl.
  rewrite firstn_app, firstn_all, Nat.sub_diag. simpl.
  rewrite app_nil_r, Nat.sub_diag. simpl. now rewrite app_nil_r.
Qed.

Lemma fread_stored_n (n pos : Z) (bs : list byte) :
  stored_at pak pos bs -> n = Z.of_nat (List.length bs) ->
  fread pak n pos = (Ok bs, pos + n, []).
Proof.
  intros H ->. now apply fread_stored.
Qed.

Lemma fread_u32_stored (pos v : Z) :
  0 <= v < u32_max -> stored_at pak pos (le_bytes 4 v) ->
  fread_u32 pak pos = (Ok v, pos + 4, []).
Proof.
  intros Hv H. unfold fread_u32.
  rewrite (bind_read _ _ pos (pos + 4) (le_bytes 4 v)).
  - unfold ret. now rewrite le_uint_le_bytes_4.
  - now apply fread_stored_n.
Qed.

(** A read never fails, and an integer read from the file fits its type. *)
Lemma fread_total (n pos : Z) :
  exists bs, fread pak n pos = (Ok bs, pos + Z.of_nat (Nat.min (Z.to_nat n)
    (List.length pak - Z.to_nat pos)), []) /\ List.length bs = Z.to_nat n.
Proof.
  eexists. unfold fread. split.
  - rewrite length_firstn, length_skipn. reflexivity.
  - rewrite length_app, repeat_length, length_firstn, length_skipn. lia.
Qed.

Lemma fread_u32_total (pos : Z) :
  exists v pos', fread_u32 pak pos = (Ok v, pos', []) /\ 0 <= v < u32_max.
Proof.
  destruct (fread_total 4 pos) as (bs & E & L).
  exists (le_uint bs). eexists. unfold fread_u32. rewrite (bind_read _ _ _ _ _ E).
  split; [reflexivity|].
  pose proof (le_uint_range bs) as R. rewrite L in R. exact R.
Qed.

End Reading.

(** ** The string table loop *)

Lemma name_record_size_pos (r : string_entry) : sizeof_pakfilename_t <= name_record_size r.
Proof.
  unfold name_record_size. lia.
Qed.

Lemma name_table_size_nonneg (rs : list string_entry) : 0 <= name_table_size rs.
Proof.
  induction rs as [|r rs IH]; simpl; [lia|].
  pose proof (name_record_size_pos r). unfold sizeof_pakfilename_t in *. lia.
Qed.

Lemma name_table_size_cons_pos (r : string_entry) (rs : list string_entry) :
  0 < name_table_size (r :: rs).
Proof.
  simpl. pose proof (name_record_size_pos r). pose proof (name_table_size_nonneg rs).
  unfold sizeof_pakfilename_t in *. lia.
Qed.

Lemma encode_name_record_length (r : string_entry) :
  Z.of_nat (List.length (encode_name_record r)) = name_record_size r.
Proof.
  unfold encode_name_record, name_record_size, sizeof_pakfilename_t.
  rewrite !length_app, !le_bytes_length, list_byte_of_string_length. lia.
Qed.

Lemma filename_of_bytes_encode (id len : Z) :
  0 <= id < u32_max -> 0 <= len < u32_max ->
  filename_of_bytes (le_bytes 4 id ++ le_bytes 4 len) = {| FileId := id; NameSize := len |}.
Proof.
  intros Hid Hlen. unfold filename_of_bytes.
  assert (E1 : slice 0 4 (le_bytes 4 id ++ le_bytes 4 len) = le_bytes 4 id) by reflexivity.
  assert (E2 : slice 4 4 (le_bytes 4 id ++ le_bytes 4 len) = le_bytes 4 len) by reflexivity.
  rewrite E1, E2, !le_uint_le_bytes_4 by assumption. reflexivity.
Qed.

(** One turn of the loop on a stored record. *)
Lemma read_name_record (pak : list byte) (pos : Z) (r : string_entry) (rest : list byte) :
  0 <= fst r < u32_max -> name_record_size r < u32_max ->
  stored_at pak pos (encode_name_record r ++ rest) ->
  fread pak sizeof_pakfilename_t pos
    = (Ok (le_bytes 4 (fst r) ++ le_bytes 4 (Z.of_nat (String.length (snd r))))%list,
       pos + 8, [])
  /\ filename_of_bytes (le_bytes 4 (fst r) ++ le_bytes 4 (Z.of_nat (String.length (snd r))))
     = {| FileId := fst r; NameSize := Z.of_nat (String.length (snd r)) |}
  /\ fread pak (Z.of_nat (String.length (snd r))) (pos + 8)
     = (Ok (list_byte_of_string (snd r)), pos + name_record_size r, []).
Proof.
  intros Hid Hsz St.
  apply stored_at_app_l in St. unfold encode_name_record in St.
  rewrite app_assoc in St.
  pose proof (stored_at_app_l _ _ _ _ St) as S1.
  pose proof (stored_at_app_r _ _ _ _ St) as S2.
  rewrite length_app, !le_bytes_length in S2. simpl in S2.
  unfold name_record_size, sizeof_pakfilename_t in *.
  repeat split.
  - apply fread_stored_n; [exact S1|]. rewrite length_app, !le_bytes_length. reflexivity.
  - apply filename_of_bytes_encode; lia.
  - replace (pos + (8 + Z.of_nat (String.length (snd r))))
      with (pos + 8 + Z.of_nat (String.length (snd r))) by lia.
    apply fread_stored_n; [exact S2|]. now rewrite list_byte_of_string_length.
Qed.

Lemma read_string_entries_stored (pak : list byte) (rs : list string_entry) :
  forall (fuel : nat) (tSize sSize pos : Z) (acc : list string_entry),
    rs <> [] ->
    (List.length rs <= fuel)%nat ->
    0 <= sSize -> sSize + name_table_size rs = tSize -> tSize < u32_max ->
    Forall (fun r => 0 <= fst r < u32_max) rs ->
    stored_at pak pos (List.concat (map encode_name_record rs)) ->
    read_string_entries pak fuel tSize sSize acc pos
      = (Ok (acc ++ rs)%list, pos + name_table_size rs, []).
Proof.
  induction rs as [|r rs IH]; intros fuel tSize sSize pos acc Hne Hfuel Hs Hsum Hmax Hids St.
  - congruence.
  - destruct fuel as [|k]; [simpl in Hfuel; lia|].
    inversion Hids as [|? ? Hid Hids']; subst.
    pose proof (name_record_size_pos r) as Hr.
    pose proof (name_table_size_nonneg rs) as Hrs.
    unfold sizeof_pakfilename_t in Hr.
    cbn [map List.concat name_table_size fold_right] in *.
    fold (name_table_size rs) in *.
    destruct (read_name_record pak pos r _ Hid ltac:(lia) St) as (R1 & R2 & R3).
    cbn [read_string_entries].
    rewrite (bind_read _ _ _ _ _ R1), R2. cbn [NameSize FileId].
    rewrite (bind_read _ _ _ _ _ R3).
    rewrite string_of_list_byte_of_string.
    fold (name_record_size r).
    rewrite (Z.mod_small (sSize + name_record_size r)) by (unfold u32_max in *; lia).
    rewrite <- surjective_pairing.
    destruct rs as [|r' rs'].
    + change (name_table_size []) with 0.
      replace (sSize + name_record_size r <? sSize + (name_record_size r + 0))
        with false by (symmetry; apply Z.ltb_ge; lia).
      unfold ret. now rewrite Z.add_0_r.
    + pose proof (name_table_size_cons_pos r' rs') as Hp.
      replace (sSize + name_record_size r <? sSize + (name_record_size r + name_table_size (r' :: rs')))
        with true by (symmetry; apply Z.ltb_lt; lia).
      rewrite (IH k _ (sSize + name_record_size r) (pos + name_record_size r)
                 (acc ++ [r])%list).
      * rewrite <- app_assoc. simpl. f_equal. f_equal. lia.
      * discriminate.
      * simpl in Hfuel |- *. lia.
      * lia.
      * lia.
      * exact Hmax.
      * exact Hids'.
      * apply stored_at_app_r in St. rewrite encode_name_record_length in St. exact St.
Qed.

(** C3: for a table size [tSize > 0] and name records (8 bytes and the
    name each) stored one after the other whose sizes add up to exactly
    [tSize], the string table loop ends (any fuel of at least one turn per
    record is enough), gives exactly those records, and leaves the cursor
    exactly [tSize] bytes after the first record: nothing beyond the table
    is read. *)
Theorem name_table_loop_stops_at_boundary
    (pak : list byte) (rs : list string_entry) (tSize pos : Z) (fuel : nat) :
  0 < tSize < u32_max ->
  Forall (fun r => 0 <= fst r < u32_max) rs ->
  name_table_size rs = tSize ->
  stored_at pak pos (List.concat (map encode_name_record rs)) ->
  (List.length rs <= fuel)%nat ->
  read_string_entries pak fuel tSize 0 [] pos = (Ok rs, pos + tSize, []).
Proof.
  intros Ht Hids Hsum St Hfuel.
  assert (Hne : rs <> []) by (intros ->; simpl in Hsum; lia).
  rewrite (read_string_entries_stored pak rs fuel tSize 0 pos []); try assumption; try lia.
  rewrite Hsum. reflexivity.
Qed.

Lemma name_table_loop_stops_at_boundary_witness :
  read_string_entries sample_pak 1 13 0 [] 56 = (Ok sample_names, 56 + 13, []).
Proof.
  apply (name_table_loop_stops_at_boundary sample_pak sample_names 13 56 1).
  - unfold u32_max. lia.
  - repeat constructor; unfold u32_max; simpl; lia.
  - reflexivity.
  - exists (firstn 56 sample_pak), (skipn 69 sample_pak). split; reflexivity.
  - simpl. lia.
Defined.

(** ** Chunk reassembly *)

Lemma read_chunk_sizes_stored (pak : list byte) (chunks : list (list byte)) :
  forall (pos : Z) (acc : list Z),
    Forall (fun c => Z.of_nat (List.length c) < u32_max) chunks ->
    stored_at pak pos (List.concat (map (fun c => le_bytes 4 (Z.of_nat (List.length c))) chunks)) ->
    read_chunk_sizes pak (List.length chunks) acc pos
      = (Ok (acc ++ map (fun c => Z.of_nat (List.length c)) chunks)%list,
         pos + 4 * Z.of_nat (List.length chunks), []).
Proof.
  induction chunks as [|c cs IH]; intros pos acc Hsz St.
  - cbn [read_chunk_sizes map List.length]. unfold ret. rewrite app_nil_r.
    change (Z.of_nat 0) with 0. now rewrite Z.mul_0_r, Z.add_0_r.
  - inversion Hsz as [|? ? Hc Hcs]; subst.
    cbn [List.length read_chunk_sizes map List.concat] in *.
    rewrite (bind_read _ _ pos (pos + 4) (Z.of_nat (List.length c))).
    + rewrite IH.
      * rewrite <- app_assoc.
        replace (pos + 4 + 4 * Z.of_nat (List.length cs))
          with (pos + 4 * Z.of_nat (S (List.length cs))) by lia.
        reflexivity.
      * exact Hcs.
      * apply stored_at_app_r in St. rewrite le_bytes_length in St. exact St.
    + apply fread_u32_stored; [lia|]. now apply stored_at_app_l in St.
Qed.

Section Reassembly.

Variable pak : list byte.
Variable aP_depack_asm : list byte -> list byte.

(** What goes from [bufferDec] into [fileData] is what the decompressor
    stored there. *)
Lemma bufferDec_prefix (written : list byte) :
  firstn (Z.to_nat (Z.of_nat (List.length written)))
         (written ++ skipn (List.length written) (repeat x00 4096)) = written.
Proof.
  rewrite Nat2Z.id, firstn_app, firstn_all, Nat.sub_diag. simpl. apply app_nil_r.
Qed.

Lemma decompress_chunks_stored (chunks : list (list byte)) :
  forall (pos : Z) (fileData : list byte),
    Forall (fun c => Z.of_nat (List.length (aP_depack_asm c)) <= 4096) chunks ->
    stored_at pak pos (List.concat chunks) ->
    decompress_chunks pak aP_depack_asm
        (map (fun c => Z.of_nat (List.length c)) chunks) fileData pos
      = (Ok (fileData ++ List.concat (map aP_depack_asm chunks))%list,
         pos + Z.of_nat (List.length (List.concat chunks)), []).
Proof.
  induction chunks as [|c cs IH]; intros pos fileData Hdec St.
  - cbn [decompress_chunks map List.concat List.length]. unfold ret. rewrite app_nil_r.
    change (Z.of_nat 0) with 0. now rewrite Z.add_0_r.
  - inversion Hdec as [|? ? Hc Hcs]; subst.
    cbn [map List.concat decompress_chunks] in *.
    rewrite (bind_read _ _ pos (pos + Z.of_nat (List.length c)) c).
    + replace (4096 <? Z.of_nat (List.length (aP_depack_asm c))) with false
        by (symmetry; apply Z.ltb_ge; lia).
      rewrite bufferDec_prefix, IH.
      * rewrite <- app_assoc, length_app, Nat2Z.inj_add, Z.add_assoc. reflexivity.
      * exact Hcs.
      * now apply stored_at_app_r in St.
    + apply fread_stored. now apply stored_at_app_l in St.
Qed.

End Reassembly.

Lemma fseeki64_ok (offset pos : Z) :
  offset < 2 ^ 63 -> fseeki64 offset pos = (Ok tt, offset, [Seek offset]).
Proof.
  intros H. unfold fseeki64. apply Z.ltb_lt in H. now rewrite H.
Qed.

Lemma read_payload_header_stored (pak : list byte) (pos fileSize chunks : Z) (rest : list byte) :
  0 <= fileSize < u32_max -> 0 <= chunks < u32_max ->
  stored_at pak pos (le_bytes 4 fileSize ++ le_bytes 4 chunks ++ rest) ->
  read_payload_header pak pos = (Ok (fileSize, chunks), pos + 8, []).
Proof.
  intros Hf Hc St. unfold read_payload_header.
  rewrite (bind_read _ _ pos (pos + 4) fileSize).
  - rewrite (bind_read _ _ (pos + 4) (pos + 8) chunks).
    + reflexivity.
    + replace (pos + 8) with (pos + 4 + 4) by lia.
      apply fread_u32_stored; [exact Hc|].
      apply stored_at_app_r in St. rewrite le_bytes_length in St.
      now apply stored_at_app_l in St.
  - apply fread_u32_stored; [exact Hf|]. now apply stored_at_app_l in St.
Qed.

Lemma chunk_sizes_table_length (chunks : list (list byte)) :
  List.length (List.concat (map (fun c => le_bytes 4 (Z.of_nat (List.length c))) chunks))
  = (4 * List.length chunks)%nat.
Proof.
  induction chunks as [|c cs IH]; [reflexivity|].
  cbn [map List.concat List.length]. rewrite length_app, le_bytes_length, IH. lia.
Qed.

Lemma encode_payload_length (fileSize : Z) (chunks : list (list byte)) :
  Z.of_nat (List.length (encode_payload fileSize chunks))
  = 8 + 4 * Z.of_nat (List.length chunks) + Z.of_nat (List.length (List.concat chunks)).
Proof.
  unfold encode_payload.
  rewrite !length_app, !le_bytes_length, chunk_sizes_table_length. lia.
Qed.

(** C4: when the payload of an entry (its header, the table of chunk
    sizes and the chunks) is stored at the entry's offset, the file written
    for it holds exactly the decompressor's outputs for the chunks, one after
    the other in the order of the chunks, each as long as the decompressor
    reported; with one chunk that decompresses to [B] the file holds
    exactly [B]. *)
Theorem dumped_file_is_concatenation_of_chunks
    (pak : list byte) (aP_depack_asm : list byte -> list byte) (fopen_s : string -> bool)
    (name : string) (offset size fileSize start : Z) (chunks : list (list byte)) :
  stored_at pak offset (encode_payload fileSize chunks) ->
  offset < 2 ^ 63 ->
  0 <= fileSize < u32_max ->
  chunks <> [] ->
  Z.of_nat (List.length chunks) < u32_max ->
  Forall (fun c => Z.of_nat (List.length c) < u32_max) chunks ->
  Forall (fun c => Z.of_nat (List.length (aP_depack_asm c)) <= 4096) chunks ->
  Z.of_nat (String.length (dump_path name)) < MAX_PATH ->
  fopen_s (dump_path name) = true ->
  save_compressed_file pak aP_depack_asm fopen_s name offset size start
    = (Ok tt, offset + Z.of_nat (List.length (encode_payload fileSize chunks)),
       [Seek offset; FileWrite (dump_path name) (List.concat (map aP_depack_asm chunks))])
  /\ (forall c B, chunks = [c] -> aP_depack_asm c = B ->
        files_written (events (save_compressed_file pak aP_depack_asm fopen_s
                                 name offset size start))
        = [(dump_path name, B)]).
Proof.
  intros St Hoff Hfs Hne Hn Hsz Hdec Hpath Hopen.
  assert (Hrun : save_compressed_file pak aP_depack_asm fopen_s name offset size start
    = (Ok tt, offset + Z.of_nat (List.length (encode_payload fileSize chunks)),
       [Seek offset; FileWrite (dump_path name) (List.concat (map aP_depack_asm chunks))])).
  { unfold save_compressed_file.
    rewrite (bind_ok _ _ _ _ _ _ (fseeki64_ok offset start Hoff)).
    assert (Hpos : 0 < Z.of_nat (List.length chunks))
      by (destruct chunks; [congruence | simpl; lia]).
    unfold encode_payload in St.
    rewrite (bind_read _ _ _ _ _
               (read_payload_header_stored pak offset fileSize
                  (Z.of_nat (List.length chunks)) _ Hfs ltac:(lia) St)).
    cbn [snd]. replace (0 <? Z.of_nat (List.length chunks)) with true
      by (symmetry; apply Z.ltb_lt; lia).
    rewrite Nat2Z.id.
    do 2 apply stored_at_app_r in St. rewrite !le_bytes_length in St.
    replace (offset + Z.of_nat 4 + Z.of_nat 4) with (offset + 8) in St by lia.
    rewrite (bind_read _ _ _ _ _
               (read_chunk_sizes_stored pak chunks (offset + 8) [] Hsz
                  (stored_at_app_l _ _ _ _ St))).
    cbn [app].
    apply stored_at_app_r in St. rewrite chunk_sizes_table_length in St.
    replace (offset + 8 + Z.of_nat (4 * List.length chunks))
      with (offset + 8 + 4 * Z.of_nat (List.length chunks)) in St by lia.
    rewrite (bind_read _ _ _ _ _
               (decompress_chunks_stored pak aP_depack_asm chunks _ [] Hdec St)).
    replace (MAX_PATH <=? Z.of_nat (String.length (dump_path name))) with false
      by (symmetry; apply Z.leb_gt; lia).
    rewrite Hopen. unfold emit, outcome, cursor_after, events. cbn [fst snd app].
    rewrite encode_payload_length. f_equal. f_equal. lia. }
  split; [exact Hrun|].
  intros c B -> <-. rewrite Hrun. simpl. now rewrite app_nil_r.
Qed.

(** ** Sorting *)

Lemma insert_before_perm (x : file_entry) (l : list file_entry) :
  Permutation (x :: l) (insert_before position_less x l).
Proof.
  induction l as [|y l IH]; simpl; [reflexivity|].
  destruct (position_less y x); [|reflexivity].
  rewrite perm_swap. now apply perm_skip.
Qed.

Lemma ascending_cons_le (x y : file_entry) (l : list file_entry) :
  get_1 x <= get_1 y -> ascending (y :: l) -> ascending (x :: y :: l).
Proof.
  intros Hxy Hs. constructor; [exact Hs|].
  inversion Hs as [|? ? Hl Hy]; subst. constructor; [exact Hxy|].
  eapply Forall_impl; [|exact Hy]. simpl. intros z Hz. lia.
Qed.

Lemma insert_before_ascending (x : file_entry) (l : list file_entry) :
  ascending l -> ascending (insert_before position_less x l).
Proof.
  unfold ascending. induction l as [|y l IH]; intros Hs; simpl.
  - repeat constructor.
  - unfold position_less at 1. destruct (get_1 y <? get_1 x) eqn:E.
    + apply Z.ltb_lt in E. inversion Hs as [|? ? Hl Hy]; subst.
      constructor; [now apply IH|].
      eapply Permutation_Forall; [apply insert_before_perm|].
      constructor; [lia | exact Hy].
    + apply Z.ltb_ge in E. now apply ascending_cons_le.
Qed.

Lemma stable_sort_contract : sort_contract stable_sort.
Proof.
  intros l. unfold stable_sort. induction l as [|x l [IHp IHs]]; simpl.
  - split; [reflexivity | constructor].
  - split.
    + rewrite <- insert_before_perm. now apply perm_skip.
    + now apply insert_before_ascending.
Qed.

(** With positions that are pairwise different there is one ascending
    arrangement only. *)
Lemma ascending_unique (l1 : list file_entry) :
  forall l2, NoDup (map get_1 l1) -> ascending l1 -> ascending l2 ->
             Permutation l1 l2 -> l1 = l2.
Proof.
  induction l1 as [|a l1 IH]; intros l2 Hnd H1 H2 Hp.
  - apply Permutation_nil in Hp. now subst.
  - destruct l2 as [|b l2]; [apply Permutation_sym, Permutation_nil in Hp; discriminate|].
    inversion H1 as [|? ? H1' Ha]; subst. inversion H2 as [|? ? H2' Hb]; subst.
    inversion Hnd as [|? ? Hna Hnd']; subst.
    assert (Eab : a = b).
    { assert (Ia : In a (b :: l2)) by (eapply Permutation_in; [exact Hp | now left]).
      assert (Ib : In b (a :: l1))
        by (eapply Permutation_in; [apply Permutation_sym; exact Hp | now left]).
      destruct Ia as [Ia | Ia]; [now symmetry|].
      destruct Ib as [Ib | Ib]; [exact Ib|].
      rewrite Forall_forall in Ha, Hb.
      pose proof (Ha _ Ib) as L1. pose proof (Hb _ Ia) as L2.
      exfalso. apply Hna. replace (get_1 a) with (get_1 b) by lia.
      now apply in_map. }
    subst b. f_equal. apply IH; try assumption.
    now apply Permutation_cons_inv in Hp.
Qed.

(** ** The entry table *)

Lemma le_uint_slice_u32 (off : nat) (bs : list byte) : 0 <= le_uint (slice off 4 bs) < u32_max.
Proof.
  pose proof (le_uint_range (slice off 4 bs)) as R.
  assert (L : (List.length (slice off 4 bs) <= 4)%nat)
    by (unfold slice; rewrite length_firstn; lia).
  assert (256 ^ Z.of_nat (List.length (slice off 4 bs)) <= 256 ^ 4)
    by (apply Z.pow_le_mono_r; lia).
  unfold u32_max. lia.
Qed.

Lemma read_entries_result (pak : list byte) (more : nat) :
  forall (acc : list file_entry) (pos : Z),
  exists es p,
    read_entries pak more acc pos = (Ok (acc ++ es)%list, p, map entry_found es)
    /\ List.length es = S more /\ Forall u32_entry es.
Proof.
  induction more as [|k IH]; intros acc pos;
    destruct (fread_total pak sizeof_pakfileentry_t pos) as (bs & E & _);
    set (e := (Crc (entry_of_bytes bs), Position (entry_of_bytes bs), Size (entry_of_bytes bs))).
  - exists [e]. eexists. unfold read_entries.
    rewrite (bind_read _ _ _ _ _ E). repeat split.
    repeat constructor; apply le_uint_slice_u32.
  - destruct (IH (acc ++ [e])%list
                (pos + Z.of_nat (Nat.min (Z.to_nat sizeof_pakfileentry_t)
                                   (List.length pak - Z.to_nat pos))))
      as (es & p & R & L & F).
    exists (e :: es), p. cbn [read_entries].
    rewrite (bind_read _ _ _ _ _ E). fold e.
    unfold bind at 1. unfold printf_s, emit. rewrite R.
    rewrite <- app_assoc. repeat split.
    + simpl. now rewrite L.
    + constructor; [|exact F]. repeat split; apply le_uint_slice_u32.
Qed.

(** What the decoder gives: the two counts, and the entries in the order
    [std::sort] leaves them in; the console shows them in the order in which
    they were read. *)
Lemma read_entry_table_result (pak : list byte)
    (std_sort : (file_entry -> file_entry -> bool) -> list file_entry -> list file_entry)
    (header : pakheader_t) (pos : Z) :
  exists eCount sCount es p,
    read_entry_table pak std_sort header pos
    = (Ok (eCount, sCount, if 0 <? eCount then std_sort position_less es else []), p,
       Seek (EntriesOffset header) :: Print (InfoEntryCount eCount)
         :: Print (InfoSpecialCount sCount)
         :: (if 0 <? eCount then Print InfoParsingEntries :: map entry_found es else []))
    /\ 0 <= eCount < u32_max /\ 0 <= sCount < u32_max
    /\ (0 < eCount -> Z.of_nat (List.length es) = eCount)
    /\ Forall u32_entry es.
Proof.
  unfold read_entry_table.
  set (p0 := if EntriesOffset header <? 2 ^ 63 then EntriesOffset header else pos).
  destruct (fread_u32_total pak p0) as (eCount & p1 & E1 & R1).
  destruct (fread_u32_total pak p1) as (sCount & p2 & E2 & R2).
  destruct (0 <? eCount) eqn:Epos.
  - destruct (read_entries_result pak (Z.to_nat (eCount - 1)) [] p2) as (es & p & R & L & F).
    exists eCount, sCount, es, p.
    unfold bind at 1. unfold fseeki64. fold p0.
    rewrite (bind_read _ _ _ _ _ E1), (bind_read _ _ _ _ _ E2).
    unfold bind, printf_s, emit. rewrite Epos, R. simpl. rewrite app_nil_r.
    apply Z.ltb_lt in Epos. repeat split; try lia; try assumption.
  - exists eCount, sCount, [], p2.
    unfold bind at 1. unfold fseeki64. fold p0.
    rewrite (bind_read _ _ _ _ _ E1), (bind_read _ _ _ _ _ E2).
    unfold bind, printf_s, emit, ret. rewrite Epos. simpl.
    apply Z.ltb_ge in Epos. repeat split; try lia. constructor.
Qed.

(** ** Effects of the parts of a run *)

Lemma silent_ret {A B} (f : event -> option B) (a : A) : silent f (ret a).
Proof. intros pos. reflexivity. Qed.

Lemma silent_fail {A B} (f : event -> option B) (e : failure) : silent f (@fail A e).
Proof. intros pos. reflexivity. Qed.

Lemma silent_emit {B} (f : event -> option B) (e : event) : f e = None -> silent f (emit e).
Proof. intros H pos. unfold emit, events. simpl. now rewrite H. Qed.

Lemma silent_bind {A C B} (f : event -> option B) (m : M A) (k : A -> M C) :
  silent f m -> (forall a, silent f (k a)) -> silent f (bind m k).
Proof.
  intros Hm Hk pos. rewrite events_bind, select_app, Hm. simpl.
  destruct (outcome (m pos)); [apply Hk | reflexivity].
Qed.

Lemma silent_fread {B} (f : event -> option B) (pak : list byte) (n : Z) :
  silent f (fread pak n).
Proof. intros pos. reflexivity. Qed.

Lemma silent_fread_u32 {B} (f : event -> option B) (pak : list byte) :
  silent f (fread_u32 pak).
Proof.
  apply silent_bind; [apply silent_fread | intros; apply silent_ret].
Qed.

Lemma silent_read_payload_header {B} (f : event -> option B) (pak : list byte) :
  silent f (read_payload_header pak).
Proof.
  unfold read_payload_header.
  repeat (apply silent_bind; [apply silent_fread_u32 | intros]). apply silent_ret.
Qed.

Lemma silent_read_chunk_sizes {B} (f : event -> option B) (pak : list byte) (n : nat) :
  forall acc, silent f (read_chunk_sizes pak n acc).
Proof.
  induction n as [|n IH]; intros acc; simpl; [apply silent_ret|].
  apply silent_bind; [apply silent_fread_u32 | intros; apply IH].
Qed.

Lemma silent_decompress_chunks {B} (f : event -> option B) (pak : list byte)
    (aP_depack_asm : list byte -> list byte) (chunkSizes : list Z) :
  forall fileData, silent f (decompress_chunks pak aP_depack_asm chunkSizes fileData).
Proof.
  induction chunkSizes as [|sz rest IH]; intros fileData; simpl; [apply silent_ret|].
  apply silent_bind; [apply silent_fread | intros bufferEnc].
  destruct (4096 <? _); [apply silent_fail | apply IH].
Qed.

Lemma silent_read_string_entries {B} (f : event -> option B) (pak : list byte) (fuel : nat) :
  forall tSize sSize acc, silent f (read_string_entries pak fuel tSize sSize acc).
Proof.
  induction fuel as [|k IH]; intros tSize sSize acc; simpl; [apply silent_fail|].
  apply silent_bind; [apply silent_fread | intros bs].
  apply silent_bind; [apply silent_fread | intros fname].
  destruct (_ <? tSize); [apply IH | apply silent_ret].
Qed.

(** A file is saved with one seek, to the offset given; the line
    "Saving file" is not printed there. *)
Lemma save_compressed_file_select {B} (f : event -> option B) (pak : list byte)
    (aP_depack_asm : list byte -> list byte) (fopen_s : string -> bool)
    (name : string) (offset size pos : Z) :
  (forall p d, f (FileWrite p d) = None) ->
  (forall p, f (Print (ErrDumpFailed p)) = None) ->
  select f (events (save_compressed_file pak aP_depack_asm fopen_s name offset size pos))
  = select f [Seek offset].
Proof.
  intros Hw He. unfold save_compressed_file.
  rewrite events_bind, select_app.
  change (events (fseeki64 offset pos)) with [Seek offset].
  change (outcome (fseeki64 offset pos)) with (@Ok unit tt). cbv iota.
  match goal with |- (_ ++ select f (events (?m _)))%list = _ =>
    assert (S : silent f m) end.
  { apply silent_bind; [apply silent_read_payload_header | intros hd].
    destruct (0 <? snd hd); [|apply silent_ret].
    apply silent_bind; [apply silent_read_chunk_sizes | intros chunkSizes].
    apply silent_bind; [apply silent_decompress_chunks | intros fileData].
    destruct (MAX_PATH <=? _); [apply silent_fail|].
    destruct (fopen_s _); apply silent_emit; [apply Hw | apply He]. }
  rewrite S. apply app_nil_r.
Qed.

Lemma save_compressed_file_seeks (pak : list byte)
    (aP_depack_asm : list byte -> list byte) (fopen_s : string -> bool)
    (name : string) (offset size pos : Z) :
  seeks (events (save_compressed_file pak aP_depack_asm fopen_s name offset size pos))
  = [offset].
Proof.
  unfold seeks. now rewrite save_compressed_file_select.
Qed.

Lemma save_compressed_file_saved_names (pak : list byte)
    (aP_depack_asm : list byte -> list byte) (fopen_s : string -> bool)
    (name : string) (offset size pos : Z) :
  saved_names (events (save_compressed_file pak aP_depack_asm fopen_s name offset size pos))
  = [].
Proof.
  unfold saved_names. now rewrite save_compressed_file_select.
Qed.

Section Dump.

Variable pak : list byte.
Variable aP_depack_asm : list byte -> list byte.
Variable fopen_s : string -> bool.
Variable header : pakheader_t.
Variable stringEntries : list string_entry.

(** The [std::for_each] visits the entries in order: each one is announced
    under its name and its data block is sought at its offset.  A run that
    is cut short (a buffer overrun) has visited a front part of them. *)
Lemma dump_entries_trace (fileEntries : list file_entry) :
  forall (unknownFileCount pos : Z),
  exists n,
    (n <= List.length fileEntries)%nat
    /\ seeks (events (dump_entries pak aP_depack_asm fopen_s header stringEntries
                        unknownFileCount fileEntries pos))
       = firstn n (map (byte_offset header) fileEntries)
    /\ saved_names (events (dump_entries pak aP_depack_asm fopen_s header stringEntries
                              unknownFileCount fileEntries pos))
       = firstn n (map c_str (assigned_names stringEntries unknownFileCount fileEntries))
    /\ (outcome (dump_entries pak aP_depack_asm fopen_s header stringEntries
                   unknownFileCount fileEntries pos) = Ok tt ->
        n = List.length fileEntries).
Proof.
  induction fileEntries as [|e rest IH]; intros c pos.
  - exists 0%nat. simpl. repeat split. lia.
  - cbn [dump_entries assigned_names].
    destruct (resolve_name stringEntries c e) as [name c'].
    pose proof (save_compressed_file_seeks pak aP_depack_asm fopen_s name
                  (byte_offset header e) (get_2 e) pos) as Es.
    pose proof (save_compressed_file_saved_names pak aP_depack_asm fopen_s name
                  (byte_offset header e) (get_2 e) pos) as Ev.
    rewrite outcome_bind, events_bind.
    change (outcome (printf_s (InfoSavingFile (c_str name)) pos)) with (@Ok unit tt).
    change (events (printf_s (InfoSavingFile (c_str name)) pos))
      with [Print (InfoSavingFile (c_str name))].
    change (cursor_after (printf_s (InfoSavingFile (c_str name)) pos)) with pos.
    cbv iota. rewrite outcome_bind, events_bind.
    remember (save_compressed_file pak aP_depack_asm fopen_s name
                (byte_offset header e) (get_2 e) pos) as run eqn:Erun.
    rewrite !seeks_app, !saved_names_app, Es, Ev.
    destruct (outcome run) as [[]|err].
    + destruct (IH c' (cursor_after run)) as (n & Hn & Hs & Hv & Hok).
      exists (S n). rewrite Hs, Hv. simpl. repeat split.
      * lia.
      * intros H. now rewrite (Hok H).
    + exists 1%nat. simpl. repeat split.
      * lia.
      * discriminate.
Qed.

End Dump.

Lemma events_emit_bind {B} (e : event) (k : unit -> M B) (pos : Z) :
  events (bind (emit e) k pos) = e :: events (k tt pos).
Proof. now rewrite events_bind. Qed.

Lemma outcome_emit_bind {B} (e : event) (k : unit -> M B) (pos : Z) :
  outcome (bind (emit e) k pos) = outcome (k tt pos).
Proof. now rewrite outcome_bind. Qed.

Lemma events_fseeki64_bind {B} (offset : Z) (k : unit -> M B) (pos : Z) :
  events (bind (fseeki64 offset) k pos)
  = Seek offset :: events (k tt (if offset <? 2 ^ 63 then offset else pos)).
Proof. now rewrite events_bind. Qed.

Lemma outcome_fseeki64_bind {B} (offset : Z) (k : unit -> M B) (pos : Z) :
  outcome (bind (fseeki64 offset) k pos)
  = outcome (k tt (if offset <? 2 ^ 63 then offset else pos)).
Proof. now rewrite outcome_bind. Qed.

Section StringTableStage.

Variable pak : list byte.
Variable aP_depack_asm : list byte -> list byte.
Variable fopen_s : string -> bool.
Variable header : pakheader_t.

(** From the string table on: one seek for the table, at the offset of the
    last entry, then the entries in front of it, in order. *)
Lemma process_string_table_trace (fuel : nat) (fileEntries : list file_entry) (pos : Z) :
  let run := process_string_table pak aP_depack_asm fopen_s fuel header fileEntries pos in
  exists n stringEntries,
    (n <= List.length (pop_back fileEntries))%nat
    /\ seeks (events run)
       = byte_offset header (back fileEntries)
           :: firstn n (map (byte_offset header) (pop_back fileEntries))
    /\ saved_names (events run)
       = firstn n (map c_str (assigned_names stringEntries 0 (pop_back fileEntries)))
    /\ (outcome run = Ok tt -> ~ In (Print ErrInvalidStringTable) (events run) ->
        n = List.length (pop_back fileEntries))
    /\ (forall tSize p1 unk00 p2 table,
          fread_u32 pak (cursor_after (fseeki64 (byte_offset header (back fileEntries)) pos))
            = (Ok tSize, p1, []) ->
          fread_u32 pak p1 = (Ok unk00, p2, []) ->
          tSize <> 0 ->
          outcome (read_string_entries pak fuel tSize 0 [] p2) = Ok table ->
          stringEntries = table).
Proof.
  intros run. subst run. unfold process_string_table, printf_s.
  rewrite events_emit_bind, outcome_emit_bind.
  rewrite events_fseeki64_bind, outcome_fseeki64_bind.
  change (cursor_after (fseeki64 (byte_offset header (back fileEntries)) pos))
    with (if byte_offset header (back fileEntries) <? 2 ^ 63
          then byte_offset header (back fileEntries) else pos).
  set (p0 := if byte_offset header (back fileEntries) <? 2 ^ 63
             then byte_offset header (back fileEntries) else pos).
  destruct (fread_u32_total pak p0) as (tSize & p1 & E1 & _).
  destruct (fread_u32_total pak p1) as (unk00 & p2 & E2 & _).
  rewrite (bind_read _ _ _ _ _ E1), (bind_read _ _ _ _ _ E2).
  destruct (tSize =? 0) eqn:Ez.
  - exists 0%nat, []. simpl.
    split; [lia|]. split; [reflexivity|]. split; [reflexivity|]. split.
    + intros _ H. exfalso. apply H. right. right. now left.
    + intros t' p1' u' p2' table H1 _ Hnz _. rewrite E1 in H1.
      apply Z.eqb_eq in Ez. congruence.
  - rewrite events_bind, outcome_bind.
    pose proof (silent_read_string_entries is_seek pak fuel tSize 0 [] p2) as Q1.
    pose proof (silent_read_string_entries is_saving pak fuel tSize 0 [] p2) as Q2.
    remember (read_string_entries pak fuel tSize 0 [] p2) as loop eqn:Eloop.
    cbn [seeks saved_names select is_seek is_saving].
    fold (seeks (events loop ++ match outcome loop with
                                | Ok a => events (dump_files pak aP_depack_asm fopen_s
                                                    header a (pop_back fileEntries)
                                                    (cursor_after loop))
                                | Err _ => []
                                end)).
    fold (saved_names (events loop ++ match outcome loop with
                                | Ok a => events (dump_files pak aP_depack_asm fopen_s
                                                    header a (pop_back fileEntries)
                                                    (cursor_after loop))
                                | Err _ => []
                                end)).
    rewrite seeks_app, saved_names_app.
    unfold seeks at 1. unfold saved_names at 1. rewrite Q1, Q2. cbn [app].
    assert (Hsame : forall t' p1' u' p2' table,
              fread_u32 pak p0 = (Ok t', p1', []) -> fread_u32 pak p1' = (Ok u', p2', []) ->
              outcome (read_string_entries pak fuel t' 0 [] p2') = Ok table ->
              outcome loop = Ok table).
    { intros t' p1' u' p2' table H1 H2 Hl. rewrite E1 in H1.
      inversion H1; subst t' p1'. rewrite E2 in H2. inversion H2; subst u' p2'.
      now rewrite Eloop. }
    destruct (outcome loop) as [strs|err] eqn:Eo.
    + unfold dump_files. rewrite events_emit_bind, outcome_emit_bind.
      destruct (dump_entries_trace pak aP_depack_asm fopen_s header strs
                  (pop_back fileEntries) 0 (cursor_after loop)) as (n & Hn & Hs & Hv & Hok).
      exists n, strs. cbn [seeks saved_names select is_seek is_saving].
      fold (seeks (events (dump_entries pak aP_depack_asm fopen_s header strs 0
                             (pop_back fileEntries) (cursor_after loop)))).
      fold (saved_names (events (dump_entries pak aP_depack_asm fopen_s header strs 0
                             (pop_back fileEntries) (cursor_after loop)))).
      rewrite Hs, Hv.
      split; [exact Hn|]. split; [reflexivity|]. split; [reflexivity|]. split.
      * intros H _. now apply Hok.
      * intros t' p1' u' p2' table H1 H2 _ Hl.
        pose proof (Hsame _ _ _ _ _ H1 H2 Hl) as E. congruence.
    + exists 0%nat, []. simpl.
      split; [lia|]. split; [reflexivity|]. split; [reflexivity|]. split.
      * discriminate.
      * intros t' p1' u' p2' table H1 H2 _ Hl.
        pose proof (Hsame _ _ _ _ _ H1 H2 Hl) as E. discriminate.
Qed.

End StringTableStage.

(** * The properties of the specification *)

(** A whole run on the small archive: the entry at position 3 is taken as
    the string table, the entry at position 2 is dumped under its name. *)
Example sample_run :
  main sample_pak stable_sort stored always_opens 1 Archive 0
  = (Ok tt, 47,
     [Print Banner; Print InfoProcessingKarl; Seek 80;
      Print (InfoEntryCount 2); Print (InfoSpecialCount 0);
      Print InfoParsingEntries; Print (InfoEntryFound 0 3 0);
      Print (InfoEntryFound 170 2 3); Print InfoParsingStrings;
      Seek 48; CreateDirectory "dump"; Print (InfoSavingFile "a.txt");
      Seek 32; FileWrite "dump//a.txt" sample_chunk; Print Done]).
Proof. vm_compute. reflexivity. Qed.


(** Up to sixteen elements the GNU library's [std::sort] is an insertion
    sort, which leaves two entries of one position as they were read. *)
Example short_table_ties_kept :
  libstdcxx.sort position_less [(1, 5, 0); (2, 5, 0)] = [(1, 5, 0); (2, 5, 0)].
Proof. vm_compute. reflexivity. Qed.

(** C1, as stated, fails.  With the [std::sort] of the GNU C++ library,
    twenty entries of one position, read with the ids 1 to 20 in this order
    (the console shows them so), leave the decoder in another order: the
    entry with id 11 first, then those with the ids 20 down to 12, the one
    with id 1, and those with the ids 10 down to 2.  The median step swaps
    the first element with the middle one, and the partition swaps the
    others pairwise from both ends. *)
Lemma decoder_ties_not_in_read_order :
  read_entry_table tie_pak libstdcxx.sort tie_header 0
  = (Ok (20, 0, tie_entries_sorted), 280,
     Seek 32 :: Print (InfoEntryCount 20) :: Print (InfoSpecialCount 0)
       :: Print InfoParsingEntries :: map entry_found tie_entries)
  /\ Permutation tie_entries tie_entries_sorted
  /\ ascending tie_entries_sorted
  /\ ~ ties_in_read_order tie_entries tie_entries_sorted.
Proof.
  split; [vm_compute; reflexivity|].
  split; [|split].
  - unfold tie_entries, tie_entries_sorted. apply Permutation_map.
    apply (Permutation_cons_app [11; 20; 19; 18; 17; 16; 15; 14; 13; 12]
             [10; 9; 8; 7; 6; 5; 4; 3; 2] 1).
    apply (Permutation_trans (l' := rev [11; 20; 19; 18; 17; 16; 15; 14; 13; 12;
                                         10; 9; 8; 7; 6; 5; 4; 3; 2])).
    + cbn [rev app]. do 9 apply perm_skip.
      apply (Permutation_cons_app [12; 13; 14; 15; 16; 17; 18; 19; 20] [] 11).
      rewrite app_nil_r. apply Permutation_refl.
    + apply Permutation_sym, Permutation_rev.
  - unfold ascending, tie_entries_sorted. cbn [map].
    repeat (apply SSorted_cons;
            [|repeat (apply Forall_cons; [unfold get_1; simpl; lia|]); apply Forall_nil]).
    apply SSorted_nil.
  - unfold ties_in_read_order. vm_compute. discriminate.
Qed.

(** C1, amended: the decoder gives the entries it read (the console shows
    them in read order) rearranged so that positions ascend; the order among
    entries of equal position is the one [std::sort] leaves, which need not be
    the read order; when no two entries share a position the result is the
    one ascending arrangement, so it agrees with the stable order. *)
Theorem decoder_sorts_by_position (pak : list byte)
    (std_sort : (file_entry -> file_entry -> bool) -> list file_entry -> list file_entry)
    (header : pakheader_t) (pos : Z) :
  sort_contract std_sort ->
  exists eCount sCount es sorted p,
    read_entry_table pak std_sort header pos
    = (Ok (eCount, sCount, sorted), p,
       Seek (EntriesOffset header) :: Print (InfoEntryCount eCount)
         :: Print (InfoSpecialCount sCount)
         :: (if 0 <? eCount then Print InfoParsingEntries :: map entry_found es else []))
    /\ (0 < eCount ->
        Z.of_nat (List.length es) = eCount
        /\ Permutation es sorted
        /\ ascending sorted
        /\ (NoDup (map get_1 es) -> ties_in_read_order es sorted)).
Proof.
  intros Hsort.
  destruct (read_entry_table_result pak std_sort header pos)
    as (eCount & sCount & es & p & R & He & Hs & Hlen & Hu).
  exists eCount, sCount, es, (if 0 <? eCount then std_sort position_less es else []), p.
  split; [exact R|]. intros Hpos.
  replace (0 <? eCount) with true by (symmetry; apply Z.ltb_lt; exact Hpos).
  destruct (Hsort es) as [Hp Ha].
  repeat split; try assumption; [now apply Hlen|].
  intros Hnd. unfold ties_in_read_order.
  destruct (stable_sort_contract es) as [Hp' Ha'].
  symmetry. apply ascending_unique.
  - apply (Permutation_NoDup (l := map get_1 es)); [|exact Hnd].
    now apply Permutation_map.
  - exact Ha'.
  - exact Ha.
  - now rewrite <- Hp, <- Hp'.
Qed.

Lemma decoder_sorts_by_position_witness :
  exists eCount sCount es sorted p,
    read_entry_table sample_pak stable_sort sample_header 0
    = (Ok (eCount, sCount, sorted), p,
       Seek (EntriesOffset sample_header) :: Print (InfoEntryCount eCount)
         :: Print (InfoSpecialCount sCount)
         :: (if 0 <? eCount then Print InfoParsingEntries :: map entry_found es else []))
    /\ (0 < eCount ->
        Z.of_nat (List.length es) = eCount
        /\ Permutation es sorted
        /\ ascending sorted
        /\ (NoDup (map get_1 es) -> ties_in_read_order es sorted)).
Proof.
  apply (decoder_sorts_by_position sample_pak stable_sort sample_header 0).
  exact stable_sort_contract.
Defined.

(** C2, as stated, fails: of two name records with the id 170 the lookup
    gives the name of the first one, and the file is dumped under that name;
    a mapping in which the last write wins has the other name. *)
Lemma duplicate_id_takes_first_name :
  read_string_entries dup_pak 2 26 0 [] 56 = (Ok dup_names, 82, [])
  /\ lookup_name dup_names (170, 2, 3) = "a.txt"%string
  /\ last_write_wins dup_names 170 = Some "b.txt"%string
  /\ files_written (events (main dup_pak stable_sort stored always_opens 2 Archive 0))
     = [("dump//a.txt"%string, sample_chunk)].
Proof.
  repeat split; vm_compute; reflexivity.
Qed.

Lemma find_if_first (before after : list string_entry) (id : Z) (name : string) :
  Forall (fun se => fst se <> id) before ->
  find_if (fun se => fst se =? id) (before ++ (id, name) :: after) = Some (id, name).
Proof.
  unfold find_if. induction before as [|se before IH]; intros H; simpl.
  - now rewrite Z.eqb_refl.
  - inversion H as [|? ? Hse Hb]; subst.
    apply Z.eqb_neq in Hse. rewrite Hse. now apply IH.
Qed.

(** C2, amended: when several name records have the id of an entry, the
    lookup gives the name of the first of them, and the entry is named by
    it (or gets the next unknown-file name when that name is empty); the
    lookup is a total function, duplicates are no failure. *)
Theorem lookup_takes_first_record (before after : list string_entry)
    (name : string) (e : file_entry) (unknownFileCount : Z) :
  Forall (fun se => fst se <> get_0 e) before ->
  lookup_name (before ++ (get_0 e, name) :: after) e = name
  /\ resolve_name (before ++ (get_0 e, name) :: after) unknownFileCount e
     = if (String.length name =? 0)%nat
       then (sprintf_unknown_file unknownFileCount, (unknownFileCount + 1) mod u64_max)
       else (name, unknownFileCount).
Proof.
  intros H.
  assert (L : lookup_name (before ++ (get_0 e, name) :: after) e = name)
    by (unfold lookup_name; now rewrite find_if_first).
  split; [exact L|]. unfold resolve_name. now rewrite L.
Qed.

Lemma lookup_takes_first_record_witness :
  lookup_name ([(1, "x"%string)] ++ (get_0 (170, 2, 3), "a.txt"%string)
                 :: [(170, "b.txt"%string)]) (170, 2, 3) = "a.txt"%string
  /\ resolve_name ([(1, "x"%string)] ++ (get_0 (170, 2, 3), "a.txt"%string)
                     :: [(170, "b.txt"%string)]) 0 (170, 2, 3)
     = if (String.length "a.txt" =? 0)%nat
       then (sprintf_unknown_file 0, (0 + 1) mod u64_max)
       else ("a.txt"%string, 0).
Proof.
  apply (lookup_takes_first_record [(1, "x"%string)] [(170, "b.txt"%string)]
           "a.txt" (170, 2, 3) 0).
  constructor; [|constructor]. vm_compute. discriminate.
Defined.

Lemma dumped_file_is_concatenation_of_chunks_witness :
  save_compressed_file sample_pak stored always_opens "a.txt" 32 3 0
    = (Ok tt, 32 + Z.of_nat (List.length (encode_payload 3 [sample_chunk])),
       [Seek 32; FileWrite (dump_path "a.txt") (List.concat (map stored [sample_chunk]))])
  /\ (forall c B, [sample_chunk] = [c] -> stored c = B ->
        files_written (events (save_compressed_file sample_pak stored always_opens
                                 "a.txt" 32 3 0))
        = [(dump_path "a.txt", B)]).
Proof.
  apply (dumped_file_is_concatenation_of_chunks sample_pak stored always_opens
           "a.txt" 32 3 3 0 [sample_chunk]).
  - exists (firstn 32 sample_pak), (skipn 47 sample_pak). split; reflexivity.
  - lia.
  - unfold u32_max. lia.
  - discriminate.
  - unfold u32_max. simpl. lia.
  - constructor; [|constructor]. vm_compute. reflexivity.
  - constructor; [|constructor]. vm_compute. discriminate.
  - vm_compute. reflexivity.
  - reflexivity.
Defined.

(** ** Names of unknown files *)




Lemma string_length_append (a b : string) :
  String.length (a ++ b) = (String.length a + String.length b)%nat.
Proof.
  induction a as [|c a IH]; simpl; [reflexivity | now rewrite IH].
Qed.

Lemma hex_digits_length (n : nat) (v : Z) : String.length (hex_digits n v) = n.
Proof.
  revert v. induction n as [|n IH]; intros v; [reflexivity|].
  cbn [hex_digits]. rewrite string_length_append, IH. simpl. lia.
Qed.





Lemma resolve_name_named (stringEntries : list string_entry) (c : Z) (e : file_entry) :
  nameless stringEntries e = false ->
  resolve_name stringEntries c e = (lookup_name stringEntries e, c).
Proof.
  unfold nameless, resolve_name. now intros ->.
Qed.




Lemma string_append_assoc (a b c : string) : ((a ++ b) ++ c = a ++ (b ++ c))%string.
Proof.
  induction a as [|x a IH]; simpl; [reflexivity | now rewrite IH].
Qed.

Lemma hex_digit_not_nul (d : Z) : 0 <= d < 16 -> Ascii.eqb (hex_digit d) zero = false.
Proof.
  intros H.
  assert (C : d = 0 \/ d = 1 \/ d = 2 \/ d = 3 \/ d = 4 \/ d = 5 \/ d = 6 \/ d = 7
              \/ d = 8 \/ d = 9 \/ d = 10 \/ d = 11 \/ d = 12 \/ d = 13 \/ d = 14
              \/ d = 15) by lia.
  repeat (destruct C as [-> | C]; [reflexivity|]). now subst d.
Qed.

Lemma c_str_hex_digits (n : nat) :
  forall (v : Z) (s : string),
    c_str (hex_digits n v ++ s) = (hex_digits n v ++ c_str s)%string.
Proof.
  induction n as [|n IH]; intros v s; [reflexivity|].
  cbn [hex_digits]. rewrite !string_append_assoc, IH. f_equal.
  simpl. rewrite hex_digit_not_nul by (apply Z.mod_pos_bound; lia). reflexivity.
Qed.

(** An unknown-file name has no NUL in it: it is printed and used in the
    path as it is. *)
Lemma c_str_sprintf_unknown_file (c : Z) :
  c_str (sprintf_unknown_file c) = sprintf_unknown_file c.
Proof.
  unfold sprintf_unknown_file. now rewrite c_str_hex_digits.
Qed.




(** C6: when the payload header of an entry has a chunk count of 0, the
    entry is left after the seek and the read of that header: no byte is
    produced and no file is written for it. *)
Theorem zero_chunks_write_nothing (pak : list byte)
    (aP_depack_asm : list byte -> list byte) (fopen_s : string -> bool)
    (name : string) (offset size pos fileSize pos' : Z) :
  read_payload_header pak (cursor_after (fseeki64 offset pos))
    = (Ok (fileSize, 0), pos', []) ->
  save_compressed_file pak aP_depack_asm fopen_s name offset size pos
    = (Ok tt, pos', [Seek offset])
  /\ files_written
       (events (save_compressed_file pak aP_depack_asm fopen_s name offset size pos)) = [].
Proof.
  intros H.
  assert (E : save_compressed_file pak aP_depack_asm fopen_s name offset size pos
              = (Ok tt, pos', [Seek offset])).
  { unfold save_compressed_file.
    rewrite (bind_ok _ _ pos (cursor_after (fseeki64 offset pos)) tt [Seek offset])
      by reflexivity.
    rewrite (bind_read _ _ _ _ _ H). reflexivity. }
  split; [exact E | now rewrite E].
Qed.

Lemma zero_chunks_write_nothing_witness :
  save_compressed_file sample_pak stored always_opens "a.txt" 20 0 0
    = (Ok tt, 28, [Seek 20])
  /\ files_written
       (events (save_compressed_file sample_pak stored always_opens "a.txt" 20 0 0)) = [].
Proof.
  apply (zero_chunks_write_nothing sample_pak stored always_opens "a.txt" 20 0 0 0 28).
  vm_compute. reflexivity.
Defined.



Lemma fread_header (pak : list byte) :
  sizeof_pakheader_t <= Z.of_nat (List.length pak) ->
  fread pak sizeof_pakheader_t 0 = (Ok (firstn 32 pak), 32, []).
Proof.
  intros H. unfold fread, sizeof_pakheader_t in *.
  change (Z.to_nat 32) with 32%nat. change (Z.to_nat 0) with 0%nat.
  cbn [skipn]. rewrite length_firstn, Nat.min_l by lia.
  rewrite Nat.sub_diag. cbn [repeat]. now rewrite app_nil_r.
Qed.

(** C8: for an input of at least the 32 bytes of the header whose validity
    flag is not 0 and whose signature is the one of the Kaiko little-endian
    format, the header is read and the run goes on: it announces the format
    and then is the processing of the tables with that header, from the end
    of the header on, and the closing line after it.  With any other
    signature the run is the banner, the line "PAK file type unsupported!" and
    the closing line, and no file is written. *)
Theorem signature_dispatch (pak : list byte)
    (std_sort : (file_entry -> file_entry -> bool) -> list file_entry -> list file_entry)
    (aP_depack_asm : list byte -> list byte) (fopen_s : string -> bool) (fuel : nat) :
  sizeof_pakheader_t <= Z.of_nat (List.length pak) ->
  let header := header_of_bytes (firstn 32 pak) in
  let run := main pak std_sort aP_depack_asm fopen_s fuel Archive 0 in
  (Signature header = PakFileType_value KaikoCompressedLE -> IsValid header <> 0 ->
     let tables := process_tables pak std_sort aP_depack_asm fopen_s fuel header 32 in
     outcome run = outcome tables
     /\ cursor_after run = cursor_after tables
     /\ events run
        = (Print Banner :: Print InfoProcessingKarl :: events tables
           ++ match outcome tables with Ok _ => [Print Done] | Err _ => [] end)%list)
  /\ (Signature header <> PakFileType_value KaikoCompressedLE ->
        run = (Ok tt, 32, [Print Banner; Print ErrUnsupported; Print Done])
        /\ files_written (events run) = []).
Proof.
  intros Hsize header run. subst run. unfold main, printf_s.
  replace (Z.of_nat (List.length pak) <? sizeof_pakheader_t) with false
    by (symmetry; apply Z.ltb_ge; exact Hsize).
  split.
  - intros Hsig Hvalid.
    unfold bind at 1 4 7. unfold emit at 1 3 5.
    rewrite (bind_read _ _ _ _ _ (fread_header pak Hsize)). fold header.
    apply Z.eqb_eq in Hsig. rewrite Hsig.
    unfold process_pak_karl.
    replace (Z.of_nat (List.length pak) =? 0) with false
      by (symmetry; apply Z.eqb_neq; unfold sizeof_pakheader_t in Hsize; lia).
    apply Z.eqb_neq in Hvalid. rewrite Hvalid. cbn [orb].
    unfold printf_s, bind, emit.
    destruct (process_tables pak std_sort aP_depack_asm fopen_s fuel header 32)
      as [[[[]|err] p] ev]; simpl; repeat split.
    now rewrite app_nil_r.
  - intros Hsig. apply Z.eqb_neq in Hsig.
    assert (E : bind (emit (Print Banner))
                  (fun _ => bind (fread pak sizeof_pakheader_t)
                     (fun hb =>
                        bind (if Signature (header_of_bytes hb)
                                   =? PakFileType_value KaikoCompressedLE
                              then process_pak_karl pak std_sort aP_depack_asm fopen_s fuel
                                     (Z.of_nat (List.length pak)) (header_of_bytes hb)
                              else process_pak_unsupported)
                             (fun _ => emit (Print Done)))) 0
                = (Ok tt, 32, [Print Banner; Print ErrUnsupported; Print Done])).
    { unfold bind at 1. unfold emit at 1.
      rewrite (bind_read _ _ _ _ _ (fread_header pak Hsize)). fold header.
      rewrite Hsig. reflexivity. }
    split; [exact E | now rewrite E].
Qed.

Lemma signature_dispatch_witness :
  (let tables := process_tables sample_pak stable_sort stored always_opens 5
                   (header_of_bytes (firstn 32 sample_pak)) 32 in
   outcome (main sample_pak stable_sort stored always_opens 5 Archive 0) = outcome tables
   /\ cursor_after (main sample_pak stable_sort stored always_opens 5 Archive 0)
      = cursor_after tables
   /\ events (main sample_pak stable_sort stored always_opens 5 Archive 0)
      = (Print Banner :: Print InfoProcessingKarl :: events tables
         ++ match outcome tables with Ok _ => [Print Done] | Err _ => [] end)%list)
  /\ (main (repeat x00 32) stable_sort stored always_opens 5 Archive 0
      = (Ok tt, 32, [Print Banner; Print ErrUnsupported; Print Done])
      /\ files_written
           (events (main (repeat x00 32) stable_sort stored always_opens 5 Archive 0)) = []).
Proof.
  split.
  - refine (proj1 (signature_dispatch sample_pak stable_sort stored always_opens 5 _) _ _).
    + vm_compute. discriminate.
    + vm_compute. reflexivity.
    + vm_compute. discriminate.
  - refine (proj2 (signature_dispatch (repeat x00 32) stable_sort stored always_opens 5 _) _).
    + vm_compute. discriminate.
    + vm_compute. discriminate.
Defined.

(** ** The stages of a run *)

Lemma byte_offset_exact (header : pakheader_t) (e : file_entry) :
  0 <= Unknown00 header < u32_max -> 0 <= get_1 e < u32_max ->
  byte_offset header e = scaled_position header e.
Proof.
  intros Hs He. unfold byte_offset, scaled_position.
  apply Z.mod_small. unfold u32_max, u64_max in *. nia.
Qed.

Lemma process_tables_stages (pak : list byte)
    (std_sort : (file_entry -> file_entry -> bool) -> list file_entry -> list file_entry)
    (aP_depack_asm : list byte -> list byte) (fopen_s : string -> bool)
    (fuel : nat) (header : pakheader_t) (pos p eCount sCount : Z)
    (fileEntries : list file_entry) (ev : list event) :
  read_entry_table pak std_sort header pos = (Ok (eCount, sCount, fileEntries), p, ev) ->
  let next := if 0 <? eCount
              then process_string_table pak aP_depack_asm fopen_s fuel header fileEntries p
              else dump_files pak aP_depack_asm fopen_s header [] fileEntries p in
  outcome (process_tables pak std_sort aP_depack_asm fopen_s fuel header pos) = outcome next
  /\ events (process_tables pak std_sort aP_depack_asm fopen_s fuel header pos)
     = (ev ++ special_lines sCount ++ events next)%list.
Proof.
  intros R next. subst next. unfold process_tables.
  rewrite (bind_ok _ _ _ _ _ _ R). cbv beta iota.
  unfold outcome at 1. unfold events at 1. cbn [fst snd].
  rewrite outcome_bind, events_bind. unfold special_lines.
  destruct (0 <? sCount); destruct (0 <? eCount); split; reflexivity.
Qed.

Lemma last_in (l : list file_entry) (d : file_entry) : l <> [] -> In (last l d) l.
Proof.
  intros H. destruct (exists_last H) as (l' & a & ->).
  rewrite last_last. apply in_or_app. right. now left.
Qed.

Lemma removelast_incl (l : list file_entry) : incl (removelast l) l.
Proof.
  destruct l as [|x l]; [easy|].
  destruct (@exists_last _ (x :: l) ltac:(discriminate)) as (l' & a & E).
  rewrite E, removelast_last. intros y Hy. apply in_or_app. now left.
Qed.


Lemma seeks_entry_found (es : list file_entry) : seeks (map entry_found es) = [].
Proof.
  induction es as [|e es IH]; [reflexivity | exact IH].
Qed.

(** What the sorted entries of a run are, when [std::sort] does what it
    promises. *)
Lemma read_entry_table_sorted (pak : list byte)
    (std_sort : (file_entry -> file_entry -> bool) -> list file_entry -> list file_entry)
    (header : pakheader_t) (pos p eCount sCount : Z)
    (fileEntries : list file_entry) (ev : list event) :
  sort_contract std_sort ->
  read_entry_table pak std_sort header pos = (Ok (eCount, sCount, fileEntries), p, ev) ->
  Forall u32_entry fileEntries
  /\ ascending fileEntries
  /\ (0 < eCount -> fileEntries <> [])
  /\ (eCount <= 0 -> fileEntries = [])
  /\ seeks ev = [EntriesOffset header].
Proof.
  intros Hsort R.
  destruct (read_entry_table_result pak std_sort header pos)
    as (eCount' & sCount' & es & p' & R' & He & Hs & Hlen & Hu).
  rewrite R in R'. inversion R' as [[E1 E2 E3 E4 E5]]. clear R'.
  subst eCount' sCount' p'.
  destruct (Hsort es) as [Hp Ha].
  destruct (0 <? eCount) eqn:Epos.
  - apply Z.ltb_lt in Epos. repeat split.
    + eapply Permutation_Forall; [exact Hp | exact Hu].
    + exact Ha.
    + intros _ Hnil. rewrite Hnil in Hp. apply Permutation_sym, Permutation_nil in Hp.
      subst es. specialize (Hlen Epos). simpl in Hlen. lia.
    + lia.
    + unfold seeks. cbn [select is_seek].
      change (select is_seek (map entry_found es)) with (seeks (map entry_found es)).
      now rewrite seeks_entry_found.
  - apply Z.ltb_ge in Epos. repeat split; try constructor; try lia.
Qed.

(** C9: wherever a stored position is followed, the offset handed to the
    seek is the position times the multiplier of the header, in full (the
    64-bit product does not wrap).  After the seek to the entry table the
    seeks of a run are: the one to the string table, for the last sorted
    entry, and then one per entry dumped, in order; each with that offset. *)
Theorem every_seek_scales_position (pak : list byte)
    (std_sort : (file_entry -> file_entry -> bool) -> list file_entry -> list file_entry)
    (aP_depack_asm : list byte -> list byte) (fopen_s : string -> bool)
    (fuel : nat) (header : pakheader_t) (pos : Z) :
  sort_contract std_sort ->
  0 <= Unknown00 header < u32_max ->
  exists eCount sCount fileEntries n,
    outcome (read_entry_table pak std_sort header pos) = Ok (eCount, sCount, fileEntries)
    /\ Forall (fun e => byte_offset header e = get_1 e * Unknown00 header) fileEntries
    /\ seeks (events (process_tables pak std_sort aP_depack_asm fopen_s fuel header pos))
       = EntriesOffset header
           :: firstn n (map (fun e => get_1 e * Unknown00 header)
                            (back fileEntries :: pop_back fileEntries))
    /\ (0 < eCount -> (1 <= n)%nat)
    /\ (eCount <= 0 -> n = 0%nat).
Proof.
  intros Hsort Hscale.
  destruct (read_entry_table_result pak std_sort header pos)
    as (eCount & sCount & es & p & R & _).
  destruct (read_entry_table_sorted _ _ _ _ _ _ _ _ _ Hsort R)
    as (Hu & _ & Hne & Hnil & Hseek).
  assert (Hex : Forall (fun e => byte_offset header e = get_1 e * Unknown00 header)
                  (if 0 <? eCount then std_sort position_less es else [])).
  { eapply Forall_impl; [|exact Hu]. intros e (_ & He & _).
    now apply byte_offset_exact. }
  destruct (process_tables_stages pak std_sort aP_depack_asm fopen_s fuel header
              pos p eCount sCount _ _ R) as [_ Hev].
  rewrite Hev, !seeks_app, Hseek. clear Hev.
  replace (seeks (special_lines sCount)) with (@nil Z)
    by (unfold special_lines; now destruct (0 <? sCount)).
  cbn [app].
  destruct (0 <? eCount) eqn:Epos.
  - apply Z.ltb_lt in Epos. specialize (Hne Epos).
    destruct (process_string_table_trace pak aP_depack_asm fopen_s header fuel
                (std_sort position_less es) p) as (n & strs & _ & Hs & _).
    exists eCount, sCount, (std_sort position_less es), (S n).
    split; [now rewrite R|]. split; [exact Hex|].
    split; [|split; lia].
    rewrite Hs. cbn [firstn map]. f_equal.
    rewrite Forall_forall in Hex. f_equal.
    + apply Hex. now apply last_in.
    + f_equal. apply map_ext_in. intros e He. apply Hex.
      now apply removelast_incl.
  - apply Z.ltb_ge in Epos.
    exists eCount, sCount, [], 0%nat.
    split; [now rewrite R|]. split; [constructor|].
    split; [reflexivity|]. split; [lia | reflexivity].
Qed.

Lemma every_seek_scales_position_witness :
  exists eCount sCount fileEntries n,
    outcome (read_entry_table sample_pak stable_sort sample_header 0)
      = Ok (eCount, sCount, fileEntries)
    /\ Forall (fun e => byte_offset sample_header e = get_1 e * Unknown00 sample_header)
              fileEntries
    /\ seeks (events (process_tables sample_pak stable_sort stored always_opens 5
                        sample_header 0))
       = EntriesOffset sample_header
           :: firstn n (map (fun e => get_1 e * Unknown00 sample_header)
                            (back fileEntries :: pop_back fileEntries))
    /\ (0 < eCount -> (1 <= n)%nat)
    /\ (eCount <= 0 -> n = 0%nat).
Proof.
  apply (every_seek_scales_position sample_pak stable_sort stored always_opens 5
           sample_header 0).
  - exact stable_sort_contract.
  - vm_compute. split; [discriminate | reflexivity].
Defined.



(** * Further properties of the program *)

(** ** Runs that stop at the header *)

(** X1: a run writes a file only for an input that opens, has at least the
    32 bytes of a header, carries the Kaiko little-endian signature and has
    a validity flag other than 0. *)
Theorem files_need_valid_archive (pak : list byte)
    (std_sort : (file_entry -> file_entry -> bool) -> list file_entry -> list file_entry)
    (aP_depack_asm : list byte -> list byte) (fopen_s : string -> bool)
    (fuel : nat) (arg : argument) :
  files_written (events (main pak std_sort aP_depack_asm fopen_s fuel arg 0)) <> [] ->
  arg = Archive
  /\ sizeof_pakheader_t <= Z.of_nat (List.length pak)
  /\ Signature (header_of_bytes (firstn 32 pak)) = PakFileType_value KaikoCompressedLE
  /\ IsValid (header_of_bytes (firstn 32 pak)) <> 0.
Proof.
  intros H. destruct arg; try (exfalso; apply H; reflexivity).
  unfold main, printf_s in H.
  destruct (Z.of_nat (List.length pak) <? sizeof_pakheader_t) eqn:Esize;
    [exfalso; apply H; reflexivity|].
  apply Z.ltb_ge in Esize.
  rewrite events_emit_bind in H.
  rewrite (bind_read _ _ _ _ _ (fread_header pak Esize)) in H.
  destruct (Signature (header_of_bytes (firstn 32 pak))
            =? PakFileType_value KaikoCompressedLE) eqn:Esig;
    [|exfalso; apply H; reflexivity].
  apply Z.eqb_eq in Esig. unfold process_pak_karl in H.
  destruct (IsValid (header_of_bytes (firstn 32 pak)) =? 0) eqn:Evalid.
  - rewrite orb_true_r in H. exfalso. apply H. reflexivity.
  - apply Z.eqb_neq in Evalid. repeat split; assumption.
Qed.

Lemma files_need_valid_archive_witness :
  Archive = Archive
  /\ sizeof_pakheader_t <= Z.of_nat (List.length sample_pak)
  /\ Signature (header_of_bytes (firstn 32 sample_pak))
     = PakFileType_value KaikoCompressedLE
  /\ IsValid (header_of_bytes (firstn 32 sample_pak)) <> 0.
Proof.
  apply (files_need_valid_archive sample_pak stable_sort stored always_opens 1 Archive).
  vm_compute. discriminate.
Defined.

(** X2: with the right signature and a validity flag of 0 the run is the
    banner, the line "Invalid PAK information" and the closing line: the
    entry table is not looked at. *)
Theorem invalid_flag_stops_processing (pak : list byte)
    (std_sort : (file_entry -> file_entry -> bool) -> list file_entry -> list file_entry)
    (aP_depack_asm : list byte -> list byte) (fopen_s : string -> bool) (fuel : nat) :
  sizeof_pakheader_t <= Z.of_nat (List.length pak) ->
  Signature (header_of_bytes (firstn 32 pak)) = PakFileType_value KaikoCompressedLE ->
  IsValid (header_of_bytes (firstn 32 pak)) = 0 ->
  main pak std_sort aP_depack_asm fopen_s fuel Archive 0
  = (Ok tt, 32, [Print Banner; Print ErrInvalidPakInformation; Print Done]).
Proof.
  intros Hsize Hsig Hvalid. unfold main, printf_s.
  replace (Z.of_nat (List.length pak) <? sizeof_pakheader_t) with false
    by (symmetry; apply Z.ltb_ge; exact Hsize).
  unfold bind at 1. unfold emit at 1.
  rewrite (bind_read _ _ _ _ _ (fread_header pak Hsize)).
  apply Z.eqb_eq in Hsig. rewrite Hsig. unfold process_pak_karl.
  rewrite Hvalid, Z.eqb_refl, orb_true_r. reflexivity.
Qed.

Lemma invalid_flag_stops_processing_witness :
  main invalid_pak stable_sort stored always_opens 1 Archive 0
  = (Ok tt, 32, [Print Banner; Print ErrInvalidPakInformation; Print Done]).
Proof.
  apply (invalid_flag_stops_processing invalid_pak stable_sort stored always_opens 1).
  - vm_compute. discriminate.
  - vm_compute. reflexivity.
  - vm_compute. reflexivity.
Defined.

(** ** Reading at the end of the archive *)

(** A read at or behind the end of the file gives the zeros of the buffer
    and leaves the cursor. *)
Lemma fread_at_end (pak : list byte) (n pos : Z) :
  Z.of_nat (List.length pak) <= pos ->
  fread pak n pos = (Ok (repeat x00 (Z.to_nat n)), pos, []).
Proof.
  intros H. unfold fread.
  rewrite skipn_all2 by lia. rewrite firstn_nil. cbn [List.length app].
  now rewrite Nat.sub_0_r, Z.add_0_r.
Qed.

Lemma fread_u32_at_end (pak : list byte) (pos : Z) :
  Z.of_nat (List.length pak) <= pos -> fread_u32 pak pos = (Ok 0, pos, []).
Proof.
  intros H. unfold fread_u32. now rewrite (bind_read _ _ _ _ _ (fread_at_end pak 4 pos H)).
Qed.

(** X3: an entry whose offset is at or behind the end of the archive gives
    no file and no error: the chunk count stays at the 0 it was initialised
    with. *)
Theorem entry_behind_end_writes_nothing (pak : list byte)
    (aP_depack_asm : list byte -> list byte) (fopen_s : string -> bool)
    (name : string) (offset size pos : Z) :
  Z.of_nat (List.length pak) <= offset -> offset < 2 ^ 63 ->
  save_compressed_file pak aP_depack_asm fopen_s name offset size pos
  = (Ok tt, offset, [Seek offset]).
Proof.
  intros Hend Hoff. unfold save_compressed_file.
  rewrite (bind_ok _ _ _ _ _ _ (fseeki64_ok offset pos Hoff)).
  unfold read_payload_header.
  rewrite (bind_read _ _ offset offset (0, 0)); [reflexivity|].
  now rewrite (bind_read _ _ _ _ _ (fread_u32_at_end pak offset Hend)),
              (bind_read _ _ _ _ _ (fread_u32_at_end pak offset Hend)).
Qed.

Lemma entry_behind_end_writes_nothing_witness :
  save_compressed_file sample_pak stored always_opens "a.txt" 112 3 0
  = (Ok tt, 112, [Seek 112]).
Proof.
  apply (entry_behind_end_writes_nothing sample_pak stored always_opens "a.txt" 112 3 0).
  - vm_compute. discriminate.
  - lia.
Defined.

(** One turn of the string table loop at the end of the file: a record of
    id 0 with an empty name, and 8 more in the running total. *)
Lemma read_string_entries_step_at_end (pak : list byte) (k : nat)
    (tSize sSize pos : Z) (acc : list string_entry) :
  Z.of_nat (List.length pak) <= pos ->
  read_string_entries pak (S k) tSize sSize acc pos
  = if (sSize + 8) mod u32_max <? tSize
    then read_string_entries pak k tSize ((sSize + 8) mod u32_max)
           (acc ++ [(0, EmptyString)]) pos
    else (Ok (acc ++ [(0, EmptyString)])%list, pos, []).
Proof.
  intros H. cbn [read_string_entries].
  rewrite (bind_read _ _ _ _ _ (fread_at_end pak sizeof_pakfilename_t pos H)).
  change (filename_of_bytes (repeat x00 (Z.to_nat sizeof_pakfilename_t)))
    with {| FileId := 0; NameSize := 0 |}.
  cbn [NameSize FileId].
  rewrite (bind_read _ _ _ _ _ (fread_at_end pak 0 pos H)).
  change (string_of_list_byte (repeat x00 (Z.to_nat 0))) with EmptyString.
  change (sizeof_pakfilename_t + 0) with 8.
  now destruct ((sSize + 8) mod u32_max <? tSize).
Qed.

(** X4: at the end of the file a table size above [2^32 - 8] is never
    reached: the running total goes up in steps of 8 and wraps to 0, so the
    loop has not ended after any number of turns. *)
Theorem string_loop_never_ends_at_end (pak : list byte) (fuel : nat) :
  forall (tSize sSize pos : Z) (acc : list string_entry),
    Z.of_nat (List.length pak) <= pos ->
    u32_max - 8 < tSize ->
    sSize mod 8 = 0 ->
    outcome (read_string_entries pak fuel tSize sSize acc pos) = Err OutOfFuel.
Proof.
  induction fuel as [|k IH]; intros tSize sSize pos acc Hend Ht Hs; [reflexivity|].
  rewrite read_string_entries_step_at_end by exact Hend.
  assert (Hm : ((sSize + 8) mod u32_max) mod 8 = 0
               /\ (sSize + 8) mod u32_max <= u32_max - 8).
  { unfold u32_max in *. change (2 ^ 32) with 4294967296 in *.
    Z.div_mod_to_equations. lia. }
  destruct Hm as [Hm Hb].
  replace ((sSize + 8) mod u32_max <? tSize) with true
    by (symmetry; apply Z.ltb_lt; lia).
  now apply IH.
Qed.

Lemma string_loop_never_ends_at_end_witness :
  outcome (read_string_entries sample_pak 3 (u32_max - 1) 0 [] 112) = Err OutOfFuel.
Proof.
  apply (string_loop_never_ends_at_end sample_pak 3 (u32_max - 1) 0 112 []).
  - vm_compute. discriminate.
  - unfold u32_max. lia.
  - reflexivity.
Defined.

Lemma read_string_entries_at_end (pak : list byte) (tSize pos : Z) (m : nat) :
  Z.of_nat (List.length pak) <= pos -> tSize <= u32_max - 8 ->
  forall (fuel : nat) (sSize : Z) (acc : list string_entry),
    0 <= sSize ->
    sSize + 8 * Z.of_nat m < tSize <= sSize + 8 * Z.of_nat (S m) ->
    (S m <= fuel)%nat ->
    read_string_entries pak fuel tSize sSize acc pos
    = (Ok (acc ++ repeat (0, EmptyString) (S m))%list, pos, []).
Proof.
  intros Hend Hmax. induction m as [|m IH]; intros fuel sSize acc Hs Hb Hf;
    (destruct fuel as [|k]; [lia|]);
    rewrite read_string_entries_step_at_end by exact Hend;
    rewrite (Z.mod_small (sSize + 8)) by (unfold u32_max in *; lia).
  - replace (sSize + 8 <? tSize) with false by (symmetry; apply Z.ltb_ge; lia).
    reflexivity.
  - replace (sSize + 8 <? tSize) with true by (symmetry; apply Z.ltb_lt; lia).
    rewrite IH by lia. now rewrite <- app_assoc.
Qed.

(** X5: at the end of the file a table size of at most [2^32 - 8] ends the
    loop after one turn per 8 bytes of it, rounded up; each turn adds a
    record of id 0 with an empty name, and the cursor does not move. *)
Theorem string_loop_at_end_makes_empty_records (pak : list byte) (tSize pos : Z)
    (fuel : nat) :
  Z.of_nat (List.length pak) <= pos ->
  0 < tSize <= u32_max - 8 ->
  (Z.to_nat ((tSize + 7) / 8) <= fuel)%nat ->
  read_string_entries pak fuel tSize 0 [] pos
  = (Ok (repeat (0, EmptyString) (Z.to_nat ((tSize + 7) / 8))), pos, []).
Proof.
  intros Hend Ht Hf.
  assert (Hn : 1 <= (tSize + 7) / 8 /\ 8 * ((tSize + 7) / 8 - 1) < tSize
               /\ tSize <= 8 * ((tSize + 7) / 8))
    by (Z.div_mod_to_equations; lia).
  replace (Z.to_nat ((tSize + 7) / 8)) with (S (Z.to_nat ((tSize + 7) / 8 - 1))) in * by lia.
  rewrite (read_string_entries_at_end pak tSize pos (Z.to_nat ((tSize + 7) / 8 - 1)));
    try assumption; try lia.
  reflexivity.
Qed.

Lemma string_loop_at_end_makes_empty_records_witness :
  read_string_entries sample_pak 3 17 0 [] 112
  = (Ok (repeat (0, EmptyString) (Z.to_nat ((17 + 7) / 8))), 112, []).
Proof.
  apply (string_loop_at_end_makes_empty_records sample_pak 17 112 3).
  - vm_compute. discriminate.
  - unfold u32_max. lia.
  - vm_compute. lia.
Defined.

(** ** The string table loop past its size *)

Lemma read_string_entries_reaching (pak : list byte) (rs : list string_entry) :
  forall (fuel : nat) (tSize sSize pos : Z) (acc : list string_entry),
    rs <> [] ->
    (List.length rs <= fuel)%nat ->
    0 <= sSize ->
    sSize + name_table_size (removelast rs) < tSize ->
    tSize <= sSize + name_table_size rs ->
    sSize + name_table_size rs < u32_max ->
    Forall (fun r => 0 <= fst r < u32_max) rs ->
    stored_at pak pos (List.concat (map encode_name_record rs)) ->
    read_string_entries pak fuel tSize sSize acc pos
      = (Ok (acc ++ rs)%list, pos + name_table_size rs, []).
Proof.
  induction rs as [|r rs IH]; intros fuel tSize sSize pos acc Hne Hfuel Hs Hlt Hge Hmax Hids St.
  - congruence.
  - destruct fuel as [|k]; [simpl in Hfuel; lia|].
    inversion Hids as [|? ? Hid Hids']; subst.
    pose proof (name_record_size_pos r) as Hr.
    pose proof (name_table_size_nonneg rs) as Hrs.
    unfold sizeof_pakfilename_t in Hr.
    cbn [map List.concat] in St.
    change (name_table_size (r :: rs)) with (name_record_size r + name_table_size rs) in *.
    destruct (read_name_record pak pos r _ Hid ltac:(lia) St) as (R1 & R2 & R3).
    cbn [read_string_entries].
    rewrite (bind_read _ _ _ _ _ R1), R2. cbn [NameSize FileId].
    rewrite (bind_read _ _ _ _ _ R3).
    rewrite string_of_list_byte_of_string.
    fold (name_record_size r).
    rewrite (Z.mod_small (sSize + name_record_size r)) by (unfold u32_max in *; lia).
    rewrite <- surjective_pairing.
    destruct rs as [|r' rs'].
    + change (name_table_size []) with 0 in *.
      replace (sSize + name_record_size r <? tSize) with false
        by (symmetry; apply Z.ltb_ge; lia).
      unfold ret. now rewrite Z.add_0_r.
    + change (removelast (r :: r' :: rs')) with (r :: removelast (r' :: rs')) in Hlt.
      change (name_table_size (r :: removelast (r' :: rs')))
        with (name_record_size r + name_table_size (removelast (r' :: rs'))) in Hlt.
      pose proof (name_table_size_nonneg (removelast (r' :: rs'))) as Hrl.
      replace (sSize + name_record_size r <? tSize) with true
        by (symmetry; apply Z.ltb_lt; lia).
      replace (acc ++ r :: r' :: rs')%list with ((acc ++ [r]) ++ r' :: rs')%list
        by (now rewrite <- app_assoc).
      replace (pos + (name_record_size r + name_table_size (r' :: rs')))
        with (pos + name_record_size r + name_table_size (r' :: rs')) by lia.
      apply IH.
      * discriminate.
      * simpl in Hfuel |- *. lia.
      * lia.
      * lia.
      * lia.
      * lia.
      * exact Hids'.
      * apply stored_at_app_r in St. rewrite encode_name_record_length in St. exact St.
Qed.

(** X6: the loop compares the running total with the table size only
    after a record has been read.  Records stored one after the other are
    all read as soon as those before the last stay below the table size and
    the last reaches it, also when the last ends behind the table: the cursor
    is then past the end of the table. *)
Theorem string_loop_reads_whole_last_record (pak : list byte) (rs : list string_entry)
    (tSize pos : Z) (fuel : nat) :
  rs <> [] ->
  Forall (fun r => 0 <= fst r < u32_max) rs ->
  stored_at pak pos (List.concat (map encode_name_record rs)) ->
  name_table_size (removelast rs) < tSize ->
  tSize <= name_table_size rs ->
  name_table_size rs < u32_max ->
  (List.length rs <= fuel)%nat ->
  read_string_entries pak fuel tSize 0 [] pos = (Ok rs, pos + name_table_size rs, [])
  /\ pos + tSize <= cursor_after (read_string_entries pak fuel tSize 0 [] pos).
Proof.
  intros Hne Hids St Hlt Hge Hmax Hfuel.
  assert (E : read_string_entries pak fuel tSize 0 [] pos
              = (Ok rs, pos + name_table_size rs, []))
    by (now apply (read_string_entries_reaching pak rs fuel tSize 0 pos [])).
  split; [exact E|]. rewrite E. unfold cursor_after. simpl. lia.
Qed.

Lemma string_loop_reads_whole_last_record_witness :
  read_string_entries sample_pak 1 9 0 [] 56
    = (Ok sample_names, 56 + name_table_size sample_names, [])
  /\ 56 + 9 <= cursor_after (read_string_entries sample_pak 1 9 0 [] 56).
Proof.
  apply (string_loop_reads_whole_last_record sample_pak sample_names 9 56 1).
  - discriminate.
  - repeat constructor; unfold u32_max; simpl; lia.
  - exists (firstn 56 sample_pak), (skipn 69 sample_pak). split; reflexivity.
  - vm_compute. reflexivity.
  - vm_compute. discriminate.
  - vm_compute. reflexivity.
  - simpl. lia.
Defined.

(** ** What a dump writes *)

Lemma files_written_app (a b : list event) :
  files_written (a ++ b) = (files_written a ++ files_written b)%list.
Proof. apply select_app. Qed.

Lemma bind_assoc {A B C} (m : M A) (f : A -> M B) (g : B -> M C) (pos : Z) :
  bind (bind m f) g pos = bind m (fun a => bind (f a) g) pos.
Proof.
  unfold bind. destruct (m pos) as [[[a|e] p] ev]; [|reflexivity].
  destruct (f a p) as [[[b|e] q] ev1]; [|reflexivity].
  destruct (g b q) as [[r s] ev2]. now rewrite app_assoc.
Qed.

Lemma bind_ext {A B} (m : M A) (f g : A -> M B) (pos : Z) :
  (forall a p, f a p = g a p) -> bind m f pos = bind m g pos.
Proof.
  intros H. unfold bind. destruct (m pos) as [[[a|e] p] ev]; [|reflexivity].
  now rewrite H.
Qed.

Lemma cursor_after_bind {A B} (m : M A) (f : A -> M B) (pos : Z) :
  cursor_after (bind m f pos)
  = match outcome (m pos) with
    | Ok a => cursor_after (f a (cursor_after (m pos)))
    | Err _ => cursor_after (m pos)
    end.
Proof.
  unfold bind, outcome, cursor_after. destruct (m pos) as [[[a|e] p] ev]; simpl.
  - now destruct (f a p) as [[r p'] ev'].
  - reflexivity.
Qed.

(** [save_compressed_file] is its reading part followed by its writing
    part. *)
Lemma save_compressed_file_split (pak : list byte)
    (aP_depack_asm : list byte -> list byte) (fopen_s : string -> bool)
    (name : string) (offset size pos : Z) :
  save_compressed_file pak aP_depack_asm fopen_s name offset size pos
  = bind (payload_data pak aP_depack_asm name offset) (write_out fopen_s name) pos.
Proof.
  symmetry. unfold payload_data, save_compressed_file.
  rewrite bind_assoc. apply bind_ext. intros _ p0.
  rewrite bind_assoc. apply bind_ext. intros hd p1.
  destruct (0 <? snd hd); [|reflexivity].
  rewrite bind_assoc. apply bind_ext. intros chunkSizes p2.
  rewrite bind_assoc. apply bind_ext. intros fileData p3.
  destruct (MAX_PATH <=? Z.of_nat (String.length (dump_path name))); [reflexivity|].
  unfold bind, ret, write_out.
  now destruct (fopen_s (dump_path name)).
Qed.

Lemma silent_fseeki64 {B} (f : event -> option B) (offset : Z) :
  f (Seek offset) = None -> silent f (fseeki64 offset).
Proof. intros H pos. unfold fseeki64, events. simpl. now rewrite H. Qed.

Lemma payload_data_writes_nothing (pak : list byte)
    (aP_depack_asm : list byte -> list byte) (name : string) (offset : Z) :
  silent is_file_write (payload_data pak aP_depack_asm name offset).
Proof.
  unfold payload_data.
  apply silent_bind; [now apply silent_fseeki64 | intros _].
  apply silent_bind; [apply silent_read_payload_header | intros hd].
  destruct (0 <? snd hd); [|apply silent_ret].
  apply silent_bind; [apply silent_read_chunk_sizes | intros chunkSizes].
  apply silent_bind; [apply silent_decompress_chunks | intros fileData].
  destruct (MAX_PATH <=? _); [apply silent_fail | apply silent_ret].
Qed.

(** Data to write means that the path fits its buffer. *)
Lemma payload_data_path_fits (pak : list byte)
    (aP_depack_asm : list byte -> list byte) (name : string) (offset pos : Z)
    (fileData : list byte) :
  outcome (payload_data pak aP_depack_asm name offset pos) = Ok (Some fileData) ->
  Z.of_nat (String.length (dump_path name)) < MAX_PATH.
Proof.
  unfold payload_data. rewrite outcome_bind. cbn [outcome fseeki64 fst].
  rewrite outcome_bind.
  destruct (outcome (read_payload_header pak _)) as [hd|e]; [|discriminate].
  destruct (0 <? snd hd); [|discriminate].
  rewrite outcome_bind.
  destruct (outcome (read_chunk_sizes pak _ _ _)) as [chunkSizes|e]; [|discriminate].
  rewrite outcome_bind.
  destruct (outcome (decompress_chunks pak aP_depack_asm _ _ _)) as [d|e]; [|discriminate].
  destruct (MAX_PATH <=? Z.of_nat (String.length (dump_path name))) eqn:E; [discriminate|].
  intros _. now apply Z.leb_gt in E.
Qed.

(** The run of [save_compressed_file] in terms of its reading part: the
    oracle of [fopen_s] decides on the file only. *)
Lemma save_compressed_file_effect (pak : list byte)
    (aP_depack_asm : list byte -> list byte) (fopen_s : string -> bool)
    (name : string) (offset size pos : Z) :
  outcome (save_compressed_file pak aP_depack_asm fopen_s name offset size pos)
  = match outcome (payload_data pak aP_depack_asm name offset pos) with
    | Ok _ => Ok tt
    | Err e => Err e
    end
  /\ cursor_after (save_compressed_file pak aP_depack_asm fopen_s name offset size pos)
     = cursor_after (payload_data pak aP_depack_asm name offset pos)
  /\ files_written
       (events (save_compressed_file pak aP_depack_asm fopen_s name offset size pos))
     = match outcome (payload_data pak aP_depack_asm name offset pos) with
       | Ok (Some fileData) =>
           if fopen_s (dump_path name) then [(dump_path name, fileData)] else []
       | _ => []
       end.
Proof.
  rewrite save_compressed_file_split.
  rewrite outcome_bind, cursor_after_bind, events_bind, files_written_app.
  pose proof (payload_data_writes_nothing pak aP_depack_asm name offset pos) as Q.
  unfold files_written at 1. rewrite Q. cbn [app].
  destruct (outcome (payload_data pak aP_depack_asm name offset pos)) as [[d|]|e];
    unfold write_out; try destruct (fopen_s (dump_path name)); repeat split.
Qed.

Lemma silent_printf_s {B} (f : event -> option B) (m : message) :
  f (Print m) = None -> silent f (printf_s m).
Proof. intros H. now apply silent_emit. Qed.

Lemma silent_read_entries {B} (f : event -> option B) (pak : list byte) (more : nat) :
  (forall m, f (Print m) = None) ->
  forall acc, silent f (read_entries pak more acc).
Proof.
  intros Hp. induction more as [|k IH]; intros acc; cbn [read_entries];
    (apply silent_bind; [apply silent_fread | intros bs]);
    (apply silent_bind; [apply silent_printf_s, Hp | intros _]).
  - apply silent_ret.
  - apply IH.
Qed.

Lemma read_entry_table_writes_nothing (pak : list byte)
    (std_sort : (file_entry -> file_entry -> bool) -> list file_entry -> list file_entry)
    (header : pakheader_t) :
  silent is_file_write (read_entry_table pak std_sort header).
Proof.
  unfold read_entry_table.
  apply silent_bind; [now apply silent_fseeki64 | intros _].
  apply silent_bind; [apply silent_fread_u32 | intros eCount].
  apply silent_bind; [apply silent_fread_u32 | intros sCount].
  apply silent_bind; [now apply silent_printf_s | intros _].
  apply silent_bind; [now apply silent_printf_s | intros _].
  destruct (0 <? eCount); [|apply silent_ret].
  apply silent_bind; [now apply silent_printf_s | intros _].
  apply silent_bind; [now apply silent_read_entries | intros fileEntries].
  apply silent_ret.
Qed.

Section Unopened.

Variable fopen_s : string -> bool.

Lemma same_but_unopened_silent {A} (m : M A) (pos : Z) :
  silent is_file_write m -> same_but_unopened fopen_s (m pos) (m pos).
Proof.
  intros H. repeat split. unfold files_written. now rewrite H.
Qed.

Lemma same_but_unopened_bind {A B} (m1 m2 : M A) (f1 f2 : A -> M B) (pos : Z) :
  same_but_unopened fopen_s (m1 pos) (m2 pos) ->
  (forall a p, same_but_unopened fopen_s (f1 a p) (f2 a p)) ->
  same_but_unopened fopen_s (bind m1 f1 pos) (bind m2 f2 pos).
Proof.
  intros (Ho & Hc & Hf) Hk. unfold same_but_unopened.
  rewrite !outcome_bind, !cursor_after_bind, !events_bind, !files_written_app.
  rewrite filter_app, Hf, Ho, Hc.
  destruct (outcome (m2 pos)) as [a|e].
  - destruct (Hk a (cursor_after (m2 pos))) as (Ho' & Hc' & Hf').
    now rewrite Ho', Hc', Hf'.
  - repeat split.
Qed.

Lemma same_but_unopened_save (pak : list byte) (aP_depack_asm : list byte -> list byte)
    (name : string) (offset size pos : Z) :
  same_but_unopened fopen_s
    (save_compressed_file pak aP_depack_asm fopen_s name offset size pos)
    (save_compressed_file pak aP_depack_asm always_opens name offset size pos).
Proof.
  destruct (save_compressed_file_effect pak aP_depack_asm fopen_s name offset size pos)
    as (O1 & C1 & F1).
  destruct (save_compressed_file_effect pak aP_depack_asm always_opens name offset size pos)
    as (O2 & C2 & F2).
  unfold same_but_unopened. rewrite O1, O2, C1, C2, F1, F2.
  repeat split.
  destruct (outcome (payload_data pak aP_depack_asm name offset pos)) as [[d|]|e];
    reflexivity.
Qed.

Lemma same_but_unopened_dump_entries (pak : list byte)
    (aP_depack_asm : list byte -> list byte) (header : pakheader_t)
    (stringEntries : list string_entry) (fileEntries : list file_entry) :
  forall c pos,
    same_but_unopened fopen_s
      (dump_entries pak aP_depack_asm fopen_s header stringEntries c fileEntries pos)
      (dump_entries pak aP_depack_asm always_opens header stringEntries c fileEntries pos).
Proof.
  induction fileEntries as [|e rest IH]; intros c pos.
  - repeat split.
  - cbn [dump_entries]. destruct (resolve_name stringEntries c e) as [name c'].
    apply same_but_unopened_bind.
    + apply same_but_unopened_silent. now apply silent_printf_s.
    + intros _ p. apply same_but_unopened_bind.
      * apply same_but_unopened_save.
      * intros _ p'. apply IH.
Qed.

End Unopened.

Section WritesOnly.

Variable P : string * list byte -> Prop.

Lemma writes_only_silent {A} (m : M A) : silent is_file_write m -> writes_only P m.
Proof.
  intros H pos. unfold files_written. rewrite H. constructor.
Qed.

Lemma writes_only_bind {A B} (m : M A) (f : A -> M B) :
  writes_only P m -> (forall a, writes_only P (f a)) -> writes_only P (bind m f).
Proof.
  intros Hm Hf pos. rewrite events_bind, files_written_app. apply Forall_app. split.
  - apply Hm.
  - destruct (outcome (m pos)); [apply Hf | constructor].
Qed.

End WritesOnly.

Lemma writes_only_save (pak : list byte) (aP_depack_asm : list byte -> list byte)
    (fopen_s : string -> bool) (name : string) (offset size : Z) :
  writes_only path_under_dump
    (save_compressed_file pak aP_depack_asm fopen_s name offset size).
Proof.
  intros pos.
  destruct (save_compressed_file_effect pak aP_depack_asm fopen_s name offset size pos)
    as (_ & _ & F).
  rewrite F.
  destruct (outcome (payload_data pak aP_depack_asm name offset pos)) as [[d|]|e] eqn:E;
    try constructor.
  destruct (fopen_s (dump_path name)); constructor; [|constructor].
  split.
  - exists (c_str name). reflexivity.
  - apply (payload_data_path_fits _ _ _ _ _ _ E).
Qed.

Lemma writes_only_dump_entries (pak : list byte) (aP_depack_asm : list byte -> list byte)
    (fopen_s : string -> bool) (header : pakheader_t)
    (stringEntries : list string_entry) (fileEntries : list file_entry) :
  forall c,
    writes_only path_under_dump
      (dump_entries pak aP_depack_asm fopen_s header stringEntries c fileEntries).
Proof.
  induction fileEntries as [|e rest IH]; intros c.
  - apply writes_only_silent, silent_ret.
  - cbn [dump_entries]. destruct (resolve_name stringEntries c e) as [name c'].
    apply writes_only_bind; [now apply writes_only_silent, silent_printf_s | intros _].
    apply writes_only_bind; [apply writes_only_save | intros _]. apply IH.
Qed.

(** The walk through [main] down to the [std::for_each]: everything in
    front of it writes no file. *)
Ltac walk_to_dump by_bind by_silence by_dump :=
  repeat first
    [ by_dump
    | by_silence;
      first [ apply silent_ret | apply silent_fail
            | apply silent_printf_s; reflexivity
            | apply silent_emit; reflexivity
            | apply silent_fseeki64; reflexivity
            | apply silent_fread | apply silent_fread_u32
            | apply read_entry_table_writes_nothing
            | apply silent_read_string_entries ]
    | by_bind; [|intros]
    | match goal with
      | |- context [match ?x with NoInputFile => _ | CannotOpen => _ | Archive => _ end] =>
          destruct x
      | |- context [match ?t with (_, _) => _ end] => destruct t
      | |- context [if ?c then _ else _] => destruct c
      end ].

(** X7: an output file that does not open changes nothing but that file.
    For any behaviour of [fopen_s] the run ends as the run in which every
    file opens, with the cursor at the same place, and its files are those
    of that run whose path opens, in the same order. *)
Theorem failed_opens_only_drop_files (pak : list byte)
    (std_sort : (file_entry -> file_entry -> bool) -> list file_entry -> list file_entry)
    (aP_depack_asm : list byte -> list byte) (fopen_s : string -> bool)
    (fuel : nat) (arg : argument) :
  outcome (main pak std_sort aP_depack_asm fopen_s fuel arg 0)
  = outcome (main pak std_sort aP_depack_asm always_opens fuel arg 0)
  /\ cursor_after (main pak std_sort aP_depack_asm fopen_s fuel arg 0)
     = cursor_after (main pak std_sort aP_depack_asm always_opens fuel arg 0)
  /\ files_written (events (main pak std_sort aP_depack_asm fopen_s fuel arg 0))
     = filter (fun f => fopen_s (fst f))
         (files_written (events (main pak std_sort aP_depack_asm always_opens fuel arg 0))).
Proof.
  change (same_but_unopened fopen_s
            (main pak std_sort aP_depack_asm fopen_s fuel arg 0)
            (main pak std_sort aP_depack_asm always_opens fuel arg 0)).
  unfold main, process_pak_unsupported, process_pak_karl, process_tables,
    process_string_table, dump_files.
  walk_to_dump ltac:(apply same_but_unopened_bind)
               ltac:(apply same_but_unopened_silent)
               ltac:(apply same_but_unopened_dump_entries).
Qed.

(** X8: every file a run writes has a path that starts with "dump//" and
    is shorter than [MAX_PATH]. *)
Theorem written_paths_are_under_dump (pak : list byte)
    (std_sort : (file_entry -> file_entry -> bool) -> list file_entry -> list file_entry)
    (aP_depack_asm : list byte -> list byte) (fopen_s : string -> bool)
    (fuel : nat) (arg : argument) (pos : Z) :
  Forall path_under_dump
    (files_written (events (main pak std_sort aP_depack_asm fopen_s fuel arg pos))).
Proof.
  revert pos.
  change (writes_only path_under_dump (main pak std_sort aP_depack_asm fopen_s fuel arg)).
  unfold main, process_pak_unsupported, process_pak_karl, process_tables,
    process_string_table, dump_files.
  walk_to_dump ltac:(apply writes_only_bind)
               ltac:(apply writes_only_silent)
               ltac:(apply writes_only_dump_entries).
Qed.

(** ** How many files a run writes *)

Lemma writes_at_most_silent {A} (n : nat) (m : M A) :
  silent is_file_write m -> writes_at_most n m.
Proof.
  intros H pos. unfold files_written. rewrite H. simpl. lia.
Qed.

Lemma writes_at_most_bind {A B} (a b : nat) (m : M A) (f : A -> M B) :
  writes_at_most a m -> (forall x, writes_at_most b (f x)) ->
  writes_at_most (a + b) (bind m f).
Proof.
  intros Hm Hf pos. rewrite events_bind, files_written_app, length_app.
  specialize (Hm pos). destruct (outcome (m pos)).
  - specialize (Hf a0 (cursor_after (m pos))). lia.
  - simpl. lia.
Qed.

Lemma writes_at_most_bind_silent {A B} (n : nat) (m : M A) (f : A -> M B) :
  writes_at_most 0 m -> (forall x, writes_at_most n (f x)) -> writes_at_most n (bind m f).
Proof.
  intros Hm Hf. now apply (writes_at_most_bind 0 n).
Qed.

Lemma writes_at_most_save (pak : list byte) (aP_depack_asm : list byte -> list byte)
    (fopen_s : string -> bool) (name : string) (offset size : Z) :
  writes_at_most 1 (save_compressed_file pak aP_depack_asm fopen_s name offset size).
Proof.
  intros pos.
  destruct (save_compressed_file_effect pak aP_depack_asm fopen_s name offset size pos)
    as (_ & _ & F).
  rewrite F.
  destruct (outcome (payload_data pak aP_depack_asm name offset pos)) as [[d|]|e];
    try destruct (fopen_s (dump_path name)); simpl; lia.
Qed.

Lemma writes_at_most_dump_entries (pak : list byte) (aP_depack_asm : list byte -> list byte)
    (fopen_s : string -> bool) (header : pakheader_t)
    (stringEntries : list string_entry) (fileEntries : list file_entry) :
  forall c,
    writes_at_most (List.length fileEntries)
      (dump_entries pak aP_depack_asm fopen_s header stringEntries c fileEntries).
Proof.
  induction fileEntries as [|e rest IH]; intros c.
  - apply writes_at_most_silent, silent_ret.
  - cbn [dump_entries List.length]. destruct (resolve_name stringEntries c e) as [name c'].
    apply writes_at_most_bind_silent;
      [now apply writes_at_most_silent, silent_printf_s | intros _].
    apply (writes_at_most_bind 1 (List.length rest)); [apply writes_at_most_save | intros _].
    apply IH.
Qed.

Lemma writes_at_most_process_string_table (pak : list byte)
    (aP_depack_asm : list byte -> list byte) (fopen_s : string -> bool)
    (fuel : nat) (header : pakheader_t) (fileEntries : list file_entry) :
  writes_at_most (List.length (pop_back fileEntries))
    (process_string_table pak aP_depack_asm fopen_s fuel header fileEntries).
Proof.
  unfold process_string_table, dump_files.
  walk_to_dump ltac:(apply writes_at_most_bind_silent)
               ltac:(apply writes_at_most_silent)
               ltac:(apply writes_at_most_dump_entries).
Qed.

(** The entries of a run are as many as the entry count says. *)
Lemma read_entry_table_length (pak : list byte)
    (std_sort : (file_entry -> file_entry -> bool) -> list file_entry -> list file_entry)
    (header : pakheader_t) (pos p eCount sCount : Z)
    (fileEntries : list file_entry) (ev : list event) :
  sort_contract std_sort ->
  read_entry_table pak std_sort header pos = (Ok (eCount, sCount, fileEntries), p, ev) ->
  Z.of_nat (List.length fileEntries) = eCount /\ 0 <= eCount < u32_max.
Proof.
  intros Hsort R.
  destruct (read_entry_table_result pak std_sort header pos)
    as (eCount' & sCount' & es & p' & R' & He & Hs & Hlen & Hu).
  rewrite R in R'. inversion R' as [[E1 E2 E3 E4 E5]]. clear R'. subst eCount'.
  split; [|exact He].
  destruct (0 <? eCount) eqn:Epos.
  - apply Z.ltb_lt in Epos. destruct (Hsort es) as [Hp _].
    rewrite <- (Permutation_length Hp). now apply Hlen.
  - apply Z.ltb_ge in Epos. simpl. lia.
Qed.

(** X9: a run writes fewer files than the entry table has entries: the
    last sorted entry is the string table and each other entry gives at most
    one file.  An archive of one entry gives no file. *)
Theorem files_fewer_than_entries (pak : list byte)
    (std_sort : (file_entry -> file_entry -> bool) -> list file_entry -> list file_entry)
    (aP_depack_asm : list byte -> list byte) (fopen_s : string -> bool)
    (fuel : nat) (header : pakheader_t) (pos eCount sCount : Z)
    (fileEntries : list file_entry) :
  sort_contract std_sort ->
  outcome (read_entry_table pak std_sort header pos) = Ok (eCount, sCount, fileEntries) ->
  Z.of_nat (List.length (files_written
              (events (process_tables pak std_sort aP_depack_asm fopen_s fuel header pos))))
  <= Z.max 0 (eCount - 1).
Proof.
  intros Hsort Ho.
  pose proof (read_entry_table_writes_nothing pak std_sort header pos) as Hq.
  destruct (read_entry_table pak std_sort header pos) as [[r p] ev] eqn:R.
  unfold outcome in Ho. cbn [fst] in Ho. subst r.
  unfold events in Hq. cbn [snd] in Hq.
  destruct (read_entry_table_length _ _ _ _ _ _ _ _ _ Hsort R) as [Hlen Hrange].
  destruct (process_tables_stages pak std_sort aP_depack_asm fopen_s fuel header
              pos p eCount sCount _ _ R) as [_ Hev].
  rewrite Hev, !files_written_app. unfold files_written at 1. rewrite Hq.
  replace (files_written (special_lines sCount)) with (@nil (string * list byte))
    by (unfold special_lines; now destruct (0 <? sCount)).
  cbn [app].
  destruct (0 <? eCount) eqn:Epos.
  - pose proof (writes_at_most_process_string_table pak aP_depack_asm fopen_s fuel
                  header fileEntries p) as Hn.
    unfold pop_back in Hn. rewrite removelast_firstn_len, length_firstn in Hn. lia.
  - apply Z.ltb_ge in Epos.
    assert (fileEntries = [])
      by (destruct fileEntries; [reflexivity | simpl in Hlen; lia]).
    subst fileEntries. simpl. lia.
Qed.

Lemma files_fewer_than_entries_witness :
  Z.of_nat (List.length (files_written
              (events (process_tables sample_pak stable_sort stored always_opens 1
                         sample_header 0))))
  <= Z.max 0 (2 - 1).
Proof.
  apply (files_fewer_than_entries sample_pak stable_sort stored always_opens 1
           sample_header 0 2 0 [(170, 2, 3); (0, 3, 0)]).
  - exact stable_sort_contract.
  - vm_compute. reflexivity.
Defined.

(** ** Tables without content *)

(** X10: with an entry count of 0 nothing is sorted, sought or dumped, but
    the directory "dump" is still made and the run ends well; this holds for
    any behaviour of [std::sort], which is not called. *)
Theorem no_entries_only_makes_directory (pak : list byte)
    (std_sort : (file_entry -> file_entry -> bool) -> list file_entry -> list file_entry)
    (aP_depack_asm : list byte -> list byte) (fopen_s : string -> bool)
    (fuel : nat) (header : pakheader_t) (pos p1 p2 sCount : Z) :
  fread_u32 pak (cursor_after (fseeki64 (EntriesOffset header) pos)) = (Ok 0, p1, []) ->
  fread_u32 pak p1 = (Ok sCount, p2, []) ->
  process_tables pak std_sort aP_depack_asm fopen_s fuel header pos
  = (Ok tt, p2,
     [Seek (EntriesOffset header); Print (InfoEntryCount 0); Print (InfoSpecialCount sCount)]
     ++ special_lines sCount ++ [CreateDirectory "dump"]).
Proof.
  intros E1 E2.
  assert (R : read_entry_table pak std_sort header pos
              = (Ok (0, sCount, []), p2,
                 [Seek (EntriesOffset header); Print (InfoEntryCount 0);
                  Print (InfoSpecialCount sCount)])).
  { unfold read_entry_table.
    rewrite (bind_ok _ _ pos (cursor_after (fseeki64 (EntriesOffset header) pos)) tt
               [Seek (EntriesOffset header)]) by reflexivity.
    now rewrite (bind_read _ _ _ _ _ E1), (bind_read _ _ _ _ _ E2). }
  unfold process_tables. rewrite (bind_ok _ _ _ _ _ _ R). cbv beta iota.
  unfold special_lines. now destruct (0 <? sCount).
Qed.

Lemma no_entries_only_makes_directory_witness :
  process_tables invalid_pak stable_sort stored always_opens 1 sample_header 0
  = (Ok tt, 80,
     [Seek (EntriesOffset sample_header); Print (InfoEntryCount 0); Print (InfoSpecialCount 0)]
     ++ special_lines 0 ++ [CreateDirectory "dump"]).
Proof.
  apply (no_entries_only_makes_directory invalid_pak stable_sort stored always_opens 1
           sample_header 0 80 80 0); reflexivity.
Defined.

(** X11: a string table whose size field is 0 ends the processing with the
    line "Invalid string table size": no name is read, the directory is not
    made and nothing is dumped, however many entries there are. *)
Theorem empty_string_table_dumps_nothing (pak : list byte)
    (aP_depack_asm : list byte -> list byte) (fopen_s : string -> bool)
    (fuel : nat) (header : pakheader_t) (fileEntries : list file_entry)
    (pos p1 : Z) :
  fread_u32 pak (cursor_after (fseeki64 (byte_offset header (back fileEntries)) pos))
    = (Ok 0, p1, []) ->
  outcome (process_string_table pak aP_depack_asm fopen_s fuel header fileEntries pos)
    = Ok tt
  /\ events (process_string_table pak aP_depack_asm fopen_s fuel header fileEntries pos)
     = [Print InfoParsingStrings; Seek (byte_offset header (back fileEntries));
        Print ErrInvalidStringTable].
Proof.
  intros E1. unfold process_string_table, printf_s.
  rewrite outcome_emit_bind, events_emit_bind.
  rewrite outcome_fseeki64_bind, events_fseeki64_bind.
  change (if byte_offset header (back fileEntries) <? 2 ^ 63
          then byte_offset header (back fileEntries) else pos)
    with (cursor_after (fseeki64 (byte_offset header (back fileEntries)) pos)).
  rewrite (bind_read _ _ _ _ _ E1).
  destruct (fread_u32_total pak p1) as (unk00 & p2 & E2 & _).
  rewrite (bind_read _ _ _ _ _ E2). split; reflexivity.
Qed.

Lemma empty_string_table_dumps_nothing_witness :
  outcome (process_string_table sample_pak stored always_opens 1 sample_header
             [(170, 2, 3); (0, 7, 0)] 0) = Ok tt
  /\ events (process_string_table sample_pak stored always_opens 1 sample_header
               [(170, 2, 3); (0, 7, 0)] 0)
     = [Print InfoParsingStrings;
        Seek (byte_offset sample_header (back [(170, 2, 3); (0, 7, 0)]));
        Print ErrInvalidStringTable].
Proof.
  apply (empty_string_table_dumps_nothing sample_pak stored always_opens 1 sample_header
           [(170, 2, 3); (0, 7, 0)] 0 112).
  reflexivity.
Defined.

(** ** Names *)

(** X12: the name of an unknown file has 21 characters, whatever the
    counter, and its path 27: formatting it never overruns [fileName] or
    [filePath], which hold [MAX_PATH] characters. *)
Theorem unknown_file_name_fits (unknownFileCount : Z) :
  String.length (sprintf_unknown_file unknownFileCount) = 21%nat
  /\ String.length (dump_path (sprintf_unknown_file unknownFileCount)) = 27%nat
  /\ (MAX_PATH <=? Z.of_nat (String.length
                              (dump_path (sprintf_unknown_file unknownFileCount)))) = false.
Proof.
  assert (L : String.length (sprintf_unknown_file unknownFileCount) = 21%nat).
  { unfold sprintf_unknown_file. rewrite string_length_append, hex_digits_length.
    reflexivity. }
  assert (L' : String.length (dump_path (sprintf_unknown_file unknownFileCount)) = 27%nat).
  { unfold dump_path. rewrite c_str_sprintf_unknown_file, string_length_append, L.
    reflexivity. }
  split; [exact L|]. split; [exact L'|]. now rewrite L'.
Qed.

(** An entry for which the lookup finds a name that is not empty gets
    that name, wherever it stands among the entries and whatever the counter
    of unknown files is. *)
Lemma assigned_names_named (stringEntries : list string_entry)
    (fileEntries : list file_entry) :
  forall (unknownFileCount : Z) (i : nat) (e : file_entry),
    nth_error fileEntries i = Some e ->
    nameless stringEntries e = false ->
    nth_error (assigned_names stringEntries unknownFileCount fileEntries) i
    = Some (lookup_name stringEntries e).
Proof.
  induction fileEntries as [|a rest IH]; intros c i e Hi He.
  - destruct i; discriminate.
  - cbn [assigned_names]. destruct i as [|j].
    + simpl in Hi. inversion Hi; subst a.
      now rewrite (resolve_name_named _ _ _ He).
    + simpl in Hi. destruct (resolve_name stringEntries c a) as [name c'].
      cbn [nth_error]. now apply IH.
Qed.

Lemma assigned_names_length (stringEntries : list string_entry)
    (fileEntries : list file_entry) :
  forall (unknownFileCount : Z),
    List.length (assigned_names stringEntries unknownFileCount fileEntries)
    = List.length fileEntries.
Proof.
  induction fileEntries as [|a rest IH]; intros c; [reflexivity|].
  cbn [assigned_names]. destruct (resolve_name stringEntries c a) as [name c'].
  simpl. now rewrite IH.
Qed.

(** ** Reading back what is stored *)

Lemma le_uint_le_bytes_8 (v : Z) : 0 <= v < u64_max -> le_uint (le_bytes 8 v) = v.
Proof.
  intros H. rewrite le_uint_le_bytes. apply Z.mod_small. exact H.
Qed.

Lemma header_of_bytes_encode (h : pakheader_t) (rest : list byte) :
  header_in_range h -> header_of_bytes (firstn 32 (encode_header h ++ rest)) = h.
Proof.
  intros (H1 & H2 & H3 & H4 & H5 & H6 & H7). destruct h as [sg va u0 u1 eo u2 u3].
  cbn [Signature IsValid Unknown00 Unknown01 EntriesOffset Unknown02 Unknown03] in *.
  unfold header_of_bytes, encode_header.
  cbn [Signature IsValid Unknown00 Unknown01 EntriesOffset Unknown02 Unknown03].
  match goal with |- context [firstn 32 ?l] => set (bs := firstn 32 l) end.
  assert (E1 : slice 0 4 bs = le_bytes 4 sg) by reflexivity.
  assert (E2 : slice 4 4 bs = le_bytes 4 va) by reflexivity.
  assert (E3 : slice 8 4 bs = le_bytes 4 u0) by reflexivity.
  assert (E4 : slice 12 4 bs = le_bytes 4 u1) by reflexivity.
  assert (E5 : slice 16 8 bs = le_bytes 8 eo) by reflexivity.
  assert (E6 : slice 24 4 bs = le_bytes 4 u2) by reflexivity.
  assert (E7 : slice 28 4 bs = le_bytes 4 u3) by reflexivity.
  rewrite E1, E2, E3, E4, E5, E6, E7.
  now rewrite !le_uint_le_bytes_4, le_uint_le_bytes_8 by assumption.
Qed.

(** [main] on an archive that starts with a valid header of the right
    signature: the table processing with that header, framed by the banner,
    the line about the format and the closing line. *)
Lemma main_with_header (h : pakheader_t) (rest : list byte)
    (std_sort : (file_entry -> file_entry -> bool) -> list file_entry -> list file_entry)
    (aP_depack_asm : list byte -> list byte) (fopen_s : string -> bool) (fuel : nat) :
  header_in_range h ->
  Signature h = PakFileType_value KaikoCompressedLE ->
  IsValid h <> 0 ->
  outcome (main (encode_header h ++ rest) std_sort aP_depack_asm fopen_s fuel Archive 0)
  = outcome (process_tables (encode_header h ++ rest) std_sort aP_depack_asm fopen_s
               fuel h 32)
  /\ events (main (encode_header h ++ rest) std_sort aP_depack_asm fopen_s fuel Archive 0)
     = (Print Banner :: Print InfoProcessingKarl
        :: events (process_tables (encode_header h ++ rest) std_sort aP_depack_asm fopen_s
                     fuel h 32)
        ++ match outcome (process_tables (encode_header h ++ rest) std_sort aP_depack_asm
                            fopen_s fuel h 32) with
           | Ok _ => [Print Done]
           | Err _ => []
           end)%list.
Proof.
  intros Hr Hsig Hvalid.
  set (pak := (encode_header h ++ rest)%list).
  assert (Hsize : sizeof_pakheader_t <= Z.of_nat (List.length pak)).
  { subst pak. rewrite length_app. change (List.length (encode_header h)) with 32%nat.
    unfold sizeof_pakheader_t. lia. }
  unfold main, printf_s.
  replace (Z.of_nat (List.length pak) <? sizeof_pakheader_t) with false
    by (symmetry; apply Z.ltb_ge; exact Hsize).
  rewrite outcome_emit_bind, events_emit_bind.
  rewrite (bind_read _ _ _ _ _ (fread_header pak Hsize)).
  subst pak. rewrite (header_of_bytes_encode h rest Hr).
  apply Z.eqb_eq in Hsig. rewrite Hsig. unfold process_pak_karl.
  replace (Z.of_nat (List.length (encode_header h ++ rest)) =? 0) with false
    by (symmetry; apply Z.eqb_neq; unfold sizeof_pakheader_t in Hsize; lia).
  apply Z.eqb_neq in Hvalid. rewrite Hvalid. cbn [orb].
  unfold printf_s, bind, emit, events, outcome.
  destruct (process_tables (encode_header h ++ rest) std_sort aP_depack_asm fopen_s fuel h 32)
    as [[[[]|err] p] ev]; simpl; rewrite ?app_nil_r; split; reflexivity.
Qed.

(** X14: a header whose fields fit their types is read back as it is from
    the 32 bytes that store it, little-endian and in the order of the
    structure: [main] works on the header the archive starts with. *)
Theorem header_is_read_back (h : pakheader_t) (rest : list byte)
    (std_sort : (file_entry -> file_entry -> bool) -> list file_entry -> list file_entry)
    (aP_depack_asm : list byte -> list byte) (fopen_s : string -> bool) (fuel : nat) :
  header_in_range h ->
  Signature h = PakFileType_value KaikoCompressedLE ->
  IsValid h <> 0 ->
  List.length (encode_header h) = 32%nat
  /\ header_of_bytes (firstn 32 (encode_header h ++ rest)) = h
  /\ events (main (encode_header h ++ rest) std_sort aP_depack_asm fopen_s fuel Archive 0)
     = (Print Banner :: Print InfoProcessingKarl
        :: events (process_tables (encode_header h ++ rest) std_sort aP_depack_asm fopen_s
                     fuel h 32)
        ++ match outcome (process_tables (encode_header h ++ rest) std_sort aP_depack_asm
                            fopen_s fuel h 32) with
           | Ok _ => [Print Done]
           | Err _ => []
           end)%list.
Proof.
  intros Hr Hsig Hvalid.
  split; [reflexivity|]. split; [now apply header_of_bytes_encode|].
  now apply main_with_header.
Qed.

Lemma header_is_read_back_witness :
  List.length (encode_header sample_header) = 32%nat
  /\ header_of_bytes (firstn 32 (encode_header sample_header ++ [x01; x02])) = sample_header
  /\ events (main (encode_header sample_header ++ [x01; x02]) stable_sort stored
               always_opens 1 Archive 0)
     = (Print Banner :: Print InfoProcessingKarl
        :: events (process_tables (encode_header sample_header ++ [x01; x02]) stable_sort
                     stored always_opens 1 sample_header 32)
        ++ match outcome (process_tables (encode_header sample_header ++ [x01; x02])
                            stable_sort stored always_opens 1 sample_header 32) with
           | Ok _ => [Print Done]
           | Err _ => []
           end)%list.
Proof.
  apply (header_is_read_back sample_header [x01; x02] stable_sort stored always_opens 1).
  - unfold header_in_range, u32_max, u64_max. simpl. lia.
  - reflexivity.
  - simpl. lia.
Defined.

Lemma entry_of_bytes_encode (e : file_entry) :
  u32_entry e ->
  entry_of_bytes (encode_entry e)
  = {| Crc := get_0 e; Position := get_1 e; Size := get_2 e |}.
Proof.
  intros (H0 & H1 & H2). unfold entry_of_bytes, encode_entry.
  set (bs := (le_bytes 4 (get_0 e) ++ le_bytes 4 (get_1 e) ++ le_bytes 4 (get_2 e))%list).
  assert (E0 : slice 0 4 bs = le_bytes 4 (get_0 e)) by reflexivity.
  assert (E1 : slice 4 4 bs = le_bytes 4 (get_1 e)) by reflexivity.
  assert (E2 : slice 8 4 bs = le_bytes 4 (get_2 e)) by reflexivity.
  rewrite E0, E1, E2. now rewrite !le_uint_le_bytes_4 by assumption.
Qed.

Lemma encode_entry_length (e : file_entry) : List.length (encode_entry e) = 12%nat.
Proof. reflexivity. Qed.

Lemma read_entries_stored (pak : list byte) (es : list file_entry) :
  forall (acc : list file_entry) (pos : Z),
    es <> [] ->
    Forall u32_entry es ->
    stored_at pak pos (List.concat (map encode_entry es)) ->
    read_entries pak (List.length es - 1) acc pos
    = (Ok (acc ++ es)%list, pos + 12 * Z.of_nat (List.length es), map entry_found es).
Proof.
  induction es as [|e es IH]; intros acc pos Hne Hu St; [congruence|].
  inversion Hu as [|? ? He Hes]; subst.
  cbn [map List.concat] in St.
  assert (R : fread pak sizeof_pakfileentry_t pos = (Ok (encode_entry e), pos + 12, []))
    by (apply fread_stored_n; [now apply stored_at_app_l in St | reflexivity]).
  apply stored_at_app_r in St. rewrite encode_entry_length in St.
  change (Z.of_nat 12) with 12 in St.
  assert (Eentry : (Crc (entry_of_bytes (encode_entry e)),
                    Position (entry_of_bytes (encode_entry e)),
                    Size (entry_of_bytes (encode_entry e))) = e).
  { rewrite (entry_of_bytes_encode e He). destruct e as [[a b] c]. reflexivity. }
  destruct es as [|e' es'].
  - cbn [List.length Nat.sub read_entries].
    rewrite (bind_read _ _ _ _ _ R). unfold bind, printf_s, emit, ret.
    rewrite Eentry. rewrite (entry_of_bytes_encode e He). cbn [Crc Position Size].
    reflexivity.
  - replace (List.length (e :: e' :: es') - 1)%nat with (S (List.length (e' :: es') - 1))
      by (simpl; lia).
    cbn [read_entries].
    rewrite (bind_read _ _ _ _ _ R). unfold bind at 1. unfold printf_s, emit.
    rewrite Eentry.
    pose proof (IH (acc ++ [e])%list (pos + 12) ltac:(discriminate) Hes St) as IH'.
    match goal with
    | |- context [read_entries ?a ?b ?c ?d] =>
        replace (read_entries a b c d)
          with (Ok ((acc ++ [e]) ++ e' :: es')%list,
                pos + 12 + 12 * Z.of_nat (List.length (e' :: es')),
                map entry_found (e' :: es'))
          by (symmetry; exact IH')
    end.
    rewrite (entry_of_bytes_encode e He). cbn [Crc Position Size].
    rewrite <- app_assoc. cbn [map app]. unfold entry_found at 2.
    f_equal. f_equal. cbn [List.length]. lia.
Qed.

(** The entry table as it is stored, read by the decoder. *)
Lemma read_entry_table_stored (pak : list byte)
    (std_sort : (file_entry -> file_entry -> bool) -> list file_entry -> list file_entry)
    (header : pakheader_t) (pos sCount : Z) (es : list file_entry) :
  EntriesOffset header < 2 ^ 63 ->
  es <> [] -> Z.of_nat (List.length es) < u32_max -> 0 <= sCount < u32_max ->
  Forall u32_entry es ->
  stored_at pak (EntriesOffset header)
    (le_bytes 4 (Z.of_nat (List.length es)) ++ le_bytes 4 sCount
     ++ List.concat (map encode_entry es)) ->
  read_entry_table pak std_sort header pos
  = (Ok (Z.of_nat (List.length es), sCount, std_sort position_less es),
     EntriesOffset header + 8 + 12 * Z.of_nat (List.length es),
     Seek (EntriesOffset header) :: Print (InfoEntryCount (Z.of_nat (List.length es)))
       :: Print (InfoSpecialCount sCount) :: Print InfoParsingEntries
       :: map entry_found es).
Proof.
  intros Hoff Hne Hlen Hs Hu St.
  assert (Hpos : 0 < Z.of_nat (List.length es))
    by (destruct es; [congruence | simpl; lia]).
  unfold read_entry_table.
  rewrite (bind_ok _ _ _ _ _ _ (fseeki64_ok (EntriesOffset header) pos Hoff)).
  rewrite (bind_read _ _ _ (EntriesOffset header + 4) (Z.of_nat (List.length es)))
    by (apply fread_u32_stored; [lia | now apply stored_at_app_l in St]).
  apply stored_at_app_r in St. rewrite le_bytes_length in St.
  rewrite (bind_read _ _ _ (EntriesOffset header + 4 + 4) sCount)
    by (apply fread_u32_stored; [exact Hs | now apply stored_at_app_l in St]).
  apply stored_at_app_r in St. rewrite le_bytes_length in St.
  replace (0 <? Z.of_nat (List.length es)) with true by (symmetry; apply Z.ltb_lt; lia).
  replace (Z.to_nat (Z.of_nat (List.length es) - 1)) with (List.length es - 1)%nat by lia.
  pose proof (read_entries_stored pak es [] (EntriesOffset header + 4 + 4) Hne Hu St) as RE.
  unfold printf_s, bind, emit, ret, outcome, cursor_after, events.
  rewrite RE. cbn [fst snd app].
  rewrite app_nil_r. f_equal. f_equal. lia.
Qed.

Lemma sort_contract_distinct
    (srt : (file_entry -> file_entry -> bool) -> list file_entry -> list file_entry)
    (es : list file_entry) :
  sort_contract srt -> NoDup (map get_1 es) ->
  srt position_less es = stable_sort position_less es.
Proof.
  intros Hsort Hnd.
  destruct (Hsort es) as [Hp Ha]. destruct (stable_sort_contract es) as [Hp' Ha'].
  symmetry. apply ascending_unique.
  - apply (Permutation_NoDup (l := map get_1 es)); [|exact Hnd].
    now apply Permutation_map.
  - exact Ha'.
  - exact Ha.
  - now rewrite <- Hp, <- Hp'.
Qed.

(** X15: an entry table stored as a count, the count of special entries
    and the entries, 12 bytes each, is read back entry by entry in the order
    stored; with pairwise different positions the decoder gives these very
    entries in ascending order of position, whatever [std::sort] does with
    ties, and leaves the cursor behind the table. *)
Theorem entry_table_is_read_back (pak : list byte)
    (std_sort : (file_entry -> file_entry -> bool) -> list file_entry -> list file_entry)
    (header : pakheader_t) (pos sCount : Z) (es : list file_entry) :
  sort_contract std_sort ->
  entry_table_stored pak header sCount es ->
  NoDup (map get_1 es) ->
  read_entry_table pak std_sort header pos
  = (Ok (Z.of_nat (List.length es), sCount, stable_sort position_less es),
     EntriesOffset header + 8 + 12 * Z.of_nat (List.length es),
     Seek (EntriesOffset header) :: Print (InfoEntryCount (Z.of_nat (List.length es)))
       :: Print (InfoSpecialCount sCount) :: Print InfoParsingEntries
       :: map entry_found es).
Proof.
  intros Hsort (Hoff & Hne & Hlen & Hs & Hu & St) Hnd.
  rewrite (read_entry_table_stored pak std_sort header pos sCount es); try assumption.
  now rewrite (sort_contract_distinct std_sort es Hsort Hnd).
Qed.

Lemma sample_entry_table_stored :
  entry_table_stored sample_pak sample_header 0 sample_entries.
Proof.
  unfold entry_table_stored. split; [reflexivity|]. split; [discriminate|].
  split; [reflexivity|]. split; [split; [discriminate | reflexivity]|]. split.
  - repeat constructor; discriminate.
  - exists (firstn 80 sample_pak), []. split; reflexivity.
Qed.

Lemma entry_table_is_read_back_witness :
  read_entry_table sample_pak stable_sort sample_header 0
  = (Ok (Z.of_nat (List.length sample_entries), 0, stable_sort position_less sample_entries),
     EntriesOffset sample_header + 8 + 12 * Z.of_nat (List.length sample_entries),
     Seek (EntriesOffset sample_header)
       :: Print (InfoEntryCount (Z.of_nat (List.length sample_entries)))
       :: Print (InfoSpecialCount 0) :: Print InfoParsingEntries
       :: map entry_found sample_entries).
Proof.
  apply (entry_table_is_read_back sample_pak stable_sort sample_header 0 0 sample_entries).
  - exact stable_sort_contract.
  - exact sample_entry_table_stored.
  - repeat constructor; simpl; intuition discriminate.
Defined.

(** ** A well-formed archive is extracted *)

Section Extraction.

Variable pak : list byte.
Variable aP_depack_asm : list byte -> list byte.
Variable fopen_s : string -> bool.
Variable header : pakheader_t.
Variable content : file_entry -> Z * list (list byte).

Hypothesis scale_in_range : 0 <= Unknown00 header < u32_max.

(** The run of [save_compressed_file] on a stored payload. *)
Lemma save_compressed_file_stored (e : file_entry) (name : string) (pos : Z) :
  0 <= get_1 e < u32_max ->
  file_stored pak aP_depack_asm fopen_s header content e name ->
  save_compressed_file pak aP_depack_asm fopen_s name (byte_offset header e) (get_2 e) pos
  = (Ok tt,
     scaled_position header e
     + Z.of_nat (List.length (encode_payload (fst (content e)) (snd (content e)))),
     [Seek (scaled_position header e);
      FileWrite (dump_path name) (List.concat (map aP_depack_asm (snd (content e))))]).
Proof.
  intros He (St & Hoff & Hfs & Hne & Hn & Hsz & Hdec & Hpath & Hopen).
  rewrite (byte_offset_exact header e scale_in_range He).
  set (offset := scaled_position header e) in *.
  destruct (content e) as [fileSize chunks]. cbn [fst snd] in *.
  unfold save_compressed_file.
  rewrite (bind_ok _ _ _ _ _ _ (fseeki64_ok offset pos Hoff)).
  assert (Hpos : 0 < Z.of_nat (List.length chunks))
    by (destruct chunks; [congruence | simpl; lia]).
  unfold encode_payload in St.
  rewrite (bind_read _ _ _ _ _
             (read_payload_header_stored pak offset fileSize
                (Z.of_nat (List.length chunks)) _ Hfs ltac:(lia) St)).
  cbn [snd]. replace (0 <? Z.of_nat (List.length chunks)) with true
    by (symmetry; apply Z.ltb_lt; lia).
  rewrite Nat2Z.id.
  do 2 apply stored_at_app_r in St. rewrite !le_bytes_length in St.
  replace (offset + Z.of_nat 4 + Z.of_nat 4) with (offset + 8) in St by lia.
  rewrite (bind_read _ _ _ _ _
             (read_chunk_sizes_stored pak chunks (offset + 8) [] Hsz
                (stored_at_app_l _ _ _ _ St))).
  cbn [app].
  apply stored_at_app_r in St. rewrite chunk_sizes_table_length in St.
  replace (offset + 8 + Z.of_nat (4 * List.length chunks))
    with (offset + 8 + 4 * Z.of_nat (List.length chunks)) in St by lia.
  rewrite (bind_read _ _ _ _ _
             (decompress_chunks_stored pak aP_depack_asm chunks _ [] Hdec St)).
  replace (MAX_PATH <=? Z.of_nat (String.length (dump_path name))) with false
    by (symmetry; apply Z.leb_gt; lia).
  rewrite Hopen. unfold emit, outcome, cursor_after, events. cbn [fst snd app].
  fold (encode_payload fileSize chunks). rewrite encode_payload_length.
  f_equal. f_equal. lia.
Qed.

(** The [std::for_each] over entries whose payloads are stored. *)
Lemma dump_entries_stored (stringEntries : list string_entry)
    (fileEntries : list file_entry) :
  forall (c pos : Z),
    Forall u32_entry fileEntries ->
    Forall2 (file_stored pak aP_depack_asm fopen_s header content)
            fileEntries (assigned_names stringEntries c fileEntries) ->
    outcome (dump_entries pak aP_depack_asm fopen_s header stringEntries c fileEntries pos)
    = Ok tt
    /\ files_written
         (events (dump_entries pak aP_depack_asm fopen_s header stringEntries c
                    fileEntries pos))
       = map (extracted aP_depack_asm content)
             (combine fileEntries (assigned_names stringEntries c fileEntries)).
Proof.
  induction fileEntries as [|e rest IH]; intros c pos Hu Hst.
  - split; reflexivity.
  - inversion Hu as [|? ? He Hrest]; subst.
    cbn [dump_entries assigned_names] in *.
    destruct (resolve_name stringEntries c e) as [name c'].
    inversion Hst as [|? ? ? ? Hfile Hothers]; subst.
    destruct He as (_ & He & _).
    pose proof (save_compressed_file_stored e name pos He Hfile) as Hsave.
    unfold printf_s. rewrite outcome_emit_bind, events_emit_bind.
    rewrite outcome_bind, events_bind, Hsave.
    unfold outcome at 1 3. unfold cursor_after. unfold events at 1. cbn [fst snd].
    destruct (IH c' (scaled_position header e
                     + Z.of_nat (List.length (encode_payload (fst (content e))
                                                (snd (content e)))))
                Hrest Hothers) as [Ho Hf].
    split; [exact Ho|].
    unfold files_written. cbn [select is_file_write app].
    fold (files_written
            (events (dump_entries pak aP_depack_asm fopen_s header stringEntries c' rest
                       (scaled_position header e
                        + Z.of_nat (List.length (encode_payload (fst (content e))
                                                   (snd (content e)))))))).
    rewrite Hf. reflexivity.
Qed.

End Extraction.

Lemma files_written_entry_found (es : list file_entry) :
  files_written (map entry_found es) = [].
Proof.
  induction es as [|e es IH]; [reflexivity | exact IH].
Qed.

(** The string table stage on a stored string table and stored payloads. *)
Lemma process_string_table_stored (pak : list byte)
    (aP_depack_asm : list byte -> list byte) (fopen_s : string -> bool)
    (fuel : nat) (header : pakheader_t) (content : file_entry -> Z * list (list byte))
    (fileEntries : list file_entry) (unk00 pos : Z) (rs : list string_entry) :
  0 <= Unknown00 header < u32_max ->
  fileEntries <> [] ->
  Forall u32_entry fileEntries ->
  string_table_stored pak header (back fileEntries) unk00 rs ->
  Forall2 (file_stored pak aP_depack_asm fopen_s header content)
          (pop_back fileEntries) (assigned_names rs 0 (pop_back fileEntries)) ->
  (List.length rs <= fuel)%nat ->
  outcome (process_string_table pak aP_depack_asm fopen_s fuel header fileEntries pos)
  = Ok tt
  /\ files_written
       (events (process_string_table pak aP_depack_asm fopen_s fuel header fileEntries pos))
     = map (extracted aP_depack_asm content)
           (combine (pop_back fileEntries) (assigned_names rs 0 (pop_back fileEntries))).
Proof.
  intros Hscale Hne Hu (Hoff & Hsize & Hunk & Hids & St) Hfiles Hfuel.
  assert (Hback : 0 <= get_1 (back fileEntries) < u32_max).
  { rewrite Forall_forall in Hu. apply (Hu (back fileEntries)). now apply last_in. }
  assert (Hrest : Forall u32_entry (pop_back fileEntries)).
  { rewrite Forall_forall in *. intros e He. apply Hu. now apply removelast_incl. }
  unfold process_string_table, printf_s.
  rewrite outcome_emit_bind, events_emit_bind.
  rewrite (byte_offset_exact header (back fileEntries) Hscale Hback).
  set (offset := scaled_position header (back fileEntries)) in *.
  rewrite outcome_fseeki64_bind, events_fseeki64_bind.
  replace (offset <? 2 ^ 63) with true by (symmetry; apply Z.ltb_lt; exact Hoff).
  rewrite (bind_read _ _ offset (offset + 4) (name_table_size rs))
    by (apply fread_u32_stored; [lia | now apply stored_at_app_l in St]).
  apply stored_at_app_r in St. rewrite le_bytes_length in St.
  rewrite (bind_read _ _ (offset + 4) (offset + 4 + 4) unk00)
    by (apply fread_u32_stored; [exact Hunk | now apply stored_at_app_l in St]).
  apply stored_at_app_r in St. rewrite le_bytes_length in St.
  replace (name_table_size rs =? 0) with false by (symmetry; apply Z.eqb_neq; lia).
  assert (Hrs : rs <> []) by (intros ->; simpl in Hsize; lia).
  rewrite (bind_read _ _ _ _ _
             (read_string_entries_stored pak rs fuel (name_table_size rs) 0
                (offset + Z.of_nat 4 + Z.of_nat 4) [] Hrs Hfuel ltac:(lia) ltac:(lia)
                ltac:(lia) Hids St)).
  cbn [app]. unfold dump_files. rewrite outcome_emit_bind, events_emit_bind.
  destruct (dump_entries_stored pak aP_depack_asm fopen_s header content Hscale rs
              (pop_back fileEntries) 0
              (offset + Z.of_nat 4 + Z.of_nat 4 + name_table_size rs) Hrest Hfiles)
    as [Ho Hf].
  split; [exact Ho|].
  unfold files_written. cbn [select is_file_write]. exact Hf.
Qed.

(** X16: an archive that stores a valid header, its entry table with
    pairwise different positions, the string table at the offset of the
    entry of highest position, and for every other entry a payload at the
    offset of the entry, is extracted in full: the run ends well and writes,
    in ascending order of position, one file per such entry, under the name
    the string table gives it (or its unknown-file name), holding the
    decompressed chunks of its payload one after the other. *)
Theorem well_formed_archive_is_extracted (pak : list byte)
    (std_sort : (file_entry -> file_entry -> bool) -> list file_entry -> list file_entry)
    (aP_depack_asm : list byte -> list byte) (fopen_s : string -> bool) (fuel : nat)
    (h : pakheader_t) (es : list file_entry) (sCount unk00 : Z)
    (rs : list string_entry) (content : file_entry -> Z * list (list byte)) :
  sort_contract std_sort ->
  header_in_range h ->
  Signature h = PakFileType_value KaikoCompressedLE ->
  IsValid h <> 0 ->
  stored_at pak 0 (encode_header h) ->
  entry_table_stored pak h sCount es ->
  NoDup (map get_1 es) ->
  string_table_stored pak h (back (stable_sort position_less es)) unk00 rs ->
  Forall2 (file_stored pak aP_depack_asm fopen_s h content)
          (pop_back (stable_sort position_less es))
          (assigned_names rs 0 (pop_back (stable_sort position_less es))) ->
  (List.length rs <= fuel)%nat ->
  outcome (main pak std_sort aP_depack_asm fopen_s fuel Archive 0) = Ok tt
  /\ files_written (events (main pak std_sort aP_depack_asm fopen_s fuel Archive 0))
     = map (extracted aP_depack_asm content)
           (combine (pop_back (stable_sort position_less es))
                    (assigned_names rs 0 (pop_back (stable_sort position_less es)))).
Proof.
  intros Hsort Hh Hsig Hvalid (pre & rest & Epak & Epre) Het Hnd Hst Hfiles Hfuel.
  assert (pre = []) by (destruct pre; [reflexivity | simpl in Epre; lia]).
  subst pre. cbn [app] in Epak. subst pak.
  destruct (main_with_header h rest std_sort aP_depack_asm fopen_s fuel Hh Hsig Hvalid)
    as [Ho Hev].
  rewrite Ho, Hev. clear Ho Hev.
  set (pak := (encode_header h ++ rest)%list) in *.
  destruct Het as (Hoff & Hne & Hlen & Hs & Hu & St).
  pose proof (read_entry_table_stored pak std_sort h 32 sCount es Hoff Hne Hlen Hs Hu St)
    as R.
  rewrite (sort_contract_distinct std_sort es Hsort Hnd) in R.
  destruct (process_tables_stages pak std_sort aP_depack_asm fopen_s fuel h 32 _ _ _ _ _ R)
    as [Ho Hev].
  assert (Hpos : 0 < Z.of_nat (List.length es))
    by (destruct es; [congruence | simpl; lia]).
  replace (0 <? Z.of_nat (List.length es)) with true in Ho, Hev
    by (symmetry; apply Z.ltb_lt; lia).
  destruct (stable_sort_contract es) as [Hperm _].
  assert (Hsorted : stable_sort position_less es <> []).
  { intros E. rewrite E in Hperm. apply Permutation_sym, Permutation_nil in Hperm.
    contradiction. }
  assert (Hu' : Forall u32_entry (stable_sort position_less es))
    by (eapply Permutation_Forall; [exact Hperm | exact Hu]).
  destruct Hh as (_ & _ & Hscale & _).
  destruct (process_string_table_stored pak aP_depack_asm fopen_s fuel h content
              (stable_sort position_less es) unk00
              (EntriesOffset h + 8 + 12 * Z.of_nat (List.length es)) rs
              Hscale Hsorted Hu' Hst Hfiles Hfuel) as [Ho' Hf'].
  rewrite Ho, Ho'. split; [reflexivity|].
  rewrite Hev. unfold files_written. cbn [select is_file_write].
  rewrite !select_app. cbn [select is_file_write].
  fold (files_written (map entry_found es)). rewrite files_written_entry_found.
  replace (select is_file_write (special_lines sCount)) with (@nil (string * list byte))
    by (unfold special_lines; now destruct (0 <? sCount)).
  cbn [app]. rewrite app_nil_r. exact Hf'.
Qed.

Lemma well_formed_archive_is_extracted_witness :
  outcome (main sample_pak stable_sort stored always_opens 1 Archive 0) = Ok tt
  /\ files_written (events (main sample_pak stable_sort stored always_opens 1 Archive 0))
     = map (extracted stored sample_content)
           (combine (pop_back (stable_sort position_less sample_entries))
                    (assigned_names sample_names 0
                       (pop_back (stable_sort position_less sample_entries)))).
Proof.
  apply (well_formed_archive_is_extracted sample_pak stable_sort stored always_opens 1
           sample_header sample_entries 0 0 sample_names sample_content).
  - exact stable_sort_contract.
  - unfold header_in_range, u32_max, u64_max. simpl. lia.
  - reflexivity.
  - simpl. lia.
  - exists [], (skipn 32 sample_pak). split; reflexivity.
  - exact sample_entry_table_stored.
  - repeat constructor; simpl; intuition discriminate.
  - unfold string_table_stored. split; [reflexivity|]. split; [split; reflexivity|].
    split; [split; [discriminate | reflexivity]|]. split.
    + repeat constructor; discriminate.
    + exists (firstn 48 sample_pak), (skipn 69 sample_pak). split; reflexivity.
  - change (Forall2 (file_stored sample_pak stored always_opens sample_header sample_content)
              [(170, 2, 3)] ["a.txt"%string]).
    constructor; [|constructor]. unfold file_stored.
    split; [exists (firstn 32 sample_pak), (skipn 47 sample_pak); split; reflexivity|].
    split; [reflexivity|]. split; [split; [discriminate | reflexivity]|].
    split; [discriminate|]. split; [reflexivity|].
    split; [constructor; [reflexivity | constructor]|].
    split; [constructor; [discriminate | constructor]|].
    split; reflexivity.
  - simpl. lia.
Defined.

(** X17: the decoder gives exactly as many entries as the entry count
    says, each with fields of 32 bits, however short the file is: what the
    file does not hold is read as zeros. *)
Theorem decoder_gives_counted_entries (pak : list byte)
    (std_sort : (file_entry -> file_entry -> bool) -> list file_entry -> list file_entry)
    (header : pakheader_t) (pos eCount sCount : Z) (fileEntries : list file_entry) :
  sort_contract std_sort ->
  outcome (read_entry_table pak std_sort header pos) = Ok (eCount, sCount, fileEntries) ->
  Z.of_nat (List.length fileEntries) = eCount
  /\ 0 <= eCount < u32_max
  /\ Forall u32_entry fileEntries.
Proof.
  intros Hsort Ho.
  destruct (read_entry_table pak std_sort header pos) as [[r p] ev] eqn:R.
  unfold outcome in Ho. cbn [fst] in Ho. subst r.
  destruct (read_entry_table_length _ _ _ _ _ _ _ _ _ Hsort R) as [Hlen Hrange].
  destruct (read_entry_table_sorted _ _ _ _ _ _ _ _ _ Hsort R) as (Hu & _).
  repeat split; try assumption; lia.
Qed.

Lemma decoder_gives_counted_entries_witness :
  Z.of_nat (List.length [(170, 2, 3); (0, 3, 0)]) = 2
  /\ 0 <= 2 < u32_max
  /\ Forall u32_entry [(170, 2, 3); (0, 3, 0)].
Proof.
  apply (decoder_gives_counted_entries sample_pak stable_sort sample_header 0 2 0
           [(170, 2, 3); (0, 3, 0)]).
  - exact stable_sort_contract.
  - vm_compute. reflexivity.
Defined.

(** ** A named entry *)

Lemma file_write_in (evs : list event) (path : string) (data : list byte) :
  In (FileWrite path data) evs -> In (path, data) (files_written evs).
Proof.
  induction evs as [|ev evs IH]; intros H; [contradiction|].
  unfold files_written in *. cbn [select]. destruct H as [->|H].
  - left. reflexivity.
  - destruct (is_file_write ev); [right|]; now apply IH.
Qed.

(** A dump that runs to its end has called [save_compressed_file] for every
    entry, under the name the entry was given: the effects of that call are
    among those of the dump. *)
Lemma dump_entries_visits (pak : list byte) (aP_depack_asm : list byte -> list byte)
    (fopen_s : string -> bool) (header : pakheader_t) (stringEntries : list string_entry)
    (fileEntries : list file_entry) :
  forall (unknownFileCount pos : Z) (i : nat) (e : file_entry),
    outcome (dump_entries pak aP_depack_asm fopen_s header stringEntries
               unknownFileCount fileEntries pos) = Ok tt ->
    nth_error fileEntries i = Some e ->
    exists name pos',
      nth_error (assigned_names stringEntries unknownFileCount fileEntries) i = Some name
      /\ incl (events (save_compressed_file pak aP_depack_asm fopen_s name
                         (byte_offset header e) (get_2 e) pos'))
              (events (dump_entries pak aP_depack_asm fopen_s header stringEntries
                         unknownFileCount fileEntries pos)).
Proof.
  induction fileEntries as [|a rest IH]; intros c pos i e Hok Hi.
  - destruct i; discriminate.
  - cbn [dump_entries assigned_names] in *.
    destruct (resolve_name stringEntries c a) as [name c'].
    unfold printf_s in *. rewrite outcome_emit_bind in Hok. rewrite events_emit_bind.
    rewrite outcome_bind in Hok. rewrite events_bind.
    destruct (outcome (save_compressed_file pak aP_depack_asm fopen_s name
                         (byte_offset header a) (get_2 a) pos)) as [[]|err];
      [|discriminate].
    destruct i as [|j]; simpl in Hi.
    + inversion Hi; subst a. exists name, pos. split; [reflexivity|].
      intros ev Hev. right. apply in_or_app. now left.
    + destruct (IH c' _ j e Hok Hi) as (n & p & Hn & Hincl).
      exists n, p. split; [exact Hn|].
      intros ev Hev. right. apply in_or_app. right. now apply Hincl.
Qed.

(** X13: in a dump that runs to its end, an entry for which the lookup
    finds a name that is not empty is, wherever it stands among the entries
    and whatever the counter of unknown files is, announced under that name
    as a C string, that is, under the part of the name in front of its first
    NUL character, and its data is sought at its byte offset.  When its
    payload is stored at that offset, the path made of "dump//" and that
    part of the name fits and the file opens, the file of that path is
    written and holds the decompressed chunks one after the other. *)
Theorem named_entry_keeps_its_name (pak : list byte)
    (aP_depack_asm : list byte -> list byte) (fopen_s : string -> bool)
    (header : pakheader_t) (stringEntries : list string_entry)
    (content : file_entry -> Z * list (list byte))
    (fileEntries : list file_entry) (unknownFileCount pos : Z)
    (i : nat) (e : file_entry) :
  outcome (dump_entries pak aP_depack_asm fopen_s header stringEntries
             unknownFileCount fileEntries pos) = Ok tt ->
  nth_error fileEntries i = Some e ->
  nameless stringEntries e = false ->
  nth_error (saved_names (events (dump_entries pak aP_depack_asm fopen_s header
                                    stringEntries unknownFileCount fileEntries pos))) i
  = Some (c_str (lookup_name stringEntries e))
  /\ nth_error (seeks (events (dump_entries pak aP_depack_asm fopen_s header
                                 stringEntries unknownFileCount fileEntries pos))) i
     = Some (byte_offset header e)
  /\ (0 <= Unknown00 header < u32_max ->
      0 <= get_1 e < u32_max ->
      file_stored pak aP_depack_asm fopen_s header content e
        (lookup_name stringEntries e) ->
      In ("dump//" ++ c_str (lookup_name stringEntries e),
          List.concat (map aP_depack_asm (snd (content e))))%string
         (files_written (events (dump_entries pak aP_depack_asm fopen_s header
                                   stringEntries unknownFileCount fileEntries pos)))).
Proof.
  intros Hok Hi He.
  destruct (dump_entries_trace pak aP_depack_asm fopen_s header stringEntries
              fileEntries unknownFileCount pos) as (n & _ & Hs & Hv & Hall).
  specialize (Hall Hok). subst n.
  pose proof (assigned_names_named stringEntries fileEntries unknownFileCount i e Hi He)
    as Hname.
  split; [|split].
  - rewrite Hv, firstn_all2
      by (rewrite length_map, assigned_names_length; apply Nat.le_refl).
    now apply map_nth_error.
  - rewrite Hs, firstn_all2 by (rewrite length_map; apply Nat.le_refl).
    now apply map_nth_error.
  - intros Hscale Hpos Hst.
    destruct (dump_entries_visits pak aP_depack_asm fopen_s header stringEntries
                fileEntries unknownFileCount pos i e Hok Hi)
      as (name & p & Hname' & Hincl).
    assert (name = lookup_name stringEntries e) by congruence. subst name.
    apply file_write_in, Hincl.
    rewrite (save_compressed_file_stored pak aP_depack_asm fopen_s header content
               Hscale e _ p Hpos Hst).
    right. left. reflexivity.
Qed.

Lemma named_entry_keeps_its_name_witness :
  nth_error (saved_names (events (dump_entries sample_pak stored always_opens sample_header
                                    nul_names 7 [(5, 7, 0); (170, 2, 3)] 0))) 1
  = Some "a"%string
  /\ nth_error (seeks (events (dump_entries sample_pak stored always_opens sample_header
                                 nul_names 7 [(5, 7, 0); (170, 2, 3)] 0))) 1
     = Some 32
  /\ In ("dump//a"%string, sample_chunk)
        (files_written (events (dump_entries sample_pak stored always_opens sample_header
                                  nul_names 7 [(5, 7, 0); (170, 2, 3)] 0))).
Proof.
  destruct (named_entry_keeps_its_name sample_pak stored always_opens sample_header
              nul_names sample_content [(5, 7, 0); (170, 2, 3)] 7 0 1 (170, 2, 3)
              eq_refl eq_refl eq_refl) as (Hname & Hseek & Hfile).
  split; [exact Hname|]. split; [exact Hseek|].
  apply Hfile.
  - split; [discriminate | reflexivity].
  - split; [discriminate | reflexivity].
  - unfold file_stored.
    split; [exists (firstn 32 sample_pak), (skipn 47 sample_pak); split; reflexivity|].
    split; [reflexivity|]. split; [split; [discriminate | reflexivity]|].
    split; [discriminate|]. split; [reflexivity|].
    split; [constructor; [reflexivity | constructor]|].
    split; [constructor; [discriminate | constructor]|].
    split; reflexivity.
Defined.
